(** * Assignment and quiz generator (src/app.py): a shallow embedding

    The three pipeline stages of [AssignmentQuizGenerator]
    ([extract_key_concepts], [generate_assignments],
    [generate_quiz_questions]) and the two text statistics computed in
    [main] are embedded as Rocq functions and the properties stated in
    the specification are checked against them.

    Character model.  Python strings are sequences of Unicode code
    points; this development covers text over the 7-bit ASCII alphabet,
    represented by [string].  The classification and case functions below
    are the restrictions of [str.isspace], [str.isalpha], [\w], [\s],
    [str.lower] and [str.upper] to code points below 128; characters with
    a code above 127 are classified as neither word nor space characters.

    Randomness.  [random.choice] and [random.shuffle] draw from the
    process-wide generator.  The generator is modelled as an explicit
    stream of draws that is threaded through the code.

    Set iteration order.  [list(set(xs))] enumerates the distinct elements
    of [xs] in an order fixed by the hashes of the strings, which change
    from one interpreter process to the next.  The order is a parameter
    [order] of the extraction, constrained to return a permutation of its
    argument. *)

From Stdlib Require Import String Ascii List Arith Lia Bool Permutation Sorted.
Import ListNotations.
Open Scope string_scope.
Open Scope list_scope.
Open Scope nat_scope.

(** ** Characters *)

Module Char.

Definition ord (c : ascii) : nat := nat_of_ascii c.

Definition chr (n : nat) : ascii := ascii_of_nat n.

Definition between (lo hi : nat) (c : ascii) : bool :=
  (lo <=? ord c) && (ord c <=? hi).

Definition isupper (c : ascii) : bool := between 65 90 c.

Definition islower (c : ascii) : bool := between 97 122 c.

(** Cased characters: the ASCII letters. *)
Definition isalpha (c : ascii) : bool := isupper c || islower c.

Definition isdigit (c : ascii) : bool := between 48 57 c.

(** [str.isspace] and the regular-expression class [\s] on ASCII:
    TAB, LF, VT, FF, CR, the separators FS, GS, RS, US and the space. *)
Definition isspace (c : ascii) : bool := between 9 13 c || between 28 32 c.

(** The regular-expression class [\w] on ASCII. *)
Definition isword (c : ascii) : bool :=
  isalpha c || isdigit c || (ord c =? 95).

Definition lower (c : ascii) : ascii :=
  if isupper c then chr (ord c + 32) else c.

Definition upper (c : ascii) : ascii :=
  if islower c then chr (ord c - 32) else c.

End Char.

(** ** Strings: the [str] methods used by the program *)

Module Str.

Fixpoint map (f : ascii -> ascii) (s : string) : string :=
  match s with
  | EmptyString => EmptyString
  | String c s' => String (f c) (map f s')
  end.

Fixpoint forallb (p : ascii -> bool) (s : string) : bool :=
  match s with
  | EmptyString => true
  | String c s' => p c && forallb p s'
  end.

Fixpoint existsb (p : ascii -> bool) (s : string) : bool :=
  match s with
  | EmptyString => false
  | String c s' => p c || existsb p s'
  end.

Definition is_empty (s : string) : bool :=
  match s with
  | EmptyString => true
  | String _ _ => false
  end.

(** [s.lower()] *)
Definition lower (s : string) : string := map Char.lower s.

(** [s.capitalize()]: first character upper-cased, all others lower-cased. *)
Definition capitalize (s : string) : string :=
  match s with
  | EmptyString => EmptyString
  | String c s' => String (Char.upper c) (lower s')
  end.

(** [s.title()]: a cased character is upper-cased when the previous
    character is not cased and lower-cased when it is. *)
Fixpoint title_from (previous_is_cased : bool) (s : string) : string :=
  match s with
  | EmptyString => EmptyString
  | String c s' =>
      String (if previous_is_cased then Char.lower c else Char.upper c)
             (title_from (Char.isalpha c) s')
  end.

Definition title (s : string) : string := title_from false s.

(** [s.isalpha()]: non-empty and made of letters only. *)
Definition isalpha (s : string) : bool :=
  negb (is_empty s) && forallb Char.isalpha s.

(** [s.lstrip()], [s.rstrip()], [s.strip()] *)
Fixpoint lstrip (s : string) : string :=
  match s with
  | EmptyString => EmptyString
  | String c s' => if Char.isspace c then lstrip s' else s
  end.

Fixpoint rstrip (s : string) : string :=
  match s with
  | EmptyString => EmptyString
  | String c s' =>
      match rstrip s' with
      | EmptyString => if Char.isspace c then EmptyString else String c EmptyString
      | r => String c r
      end
  end.

Definition strip (s : string) : string := rstrip (lstrip s).

(** Put [c] in front of the first fragment of [l]. *)
Definition cons_head (c : ascii) (l : list string) : list string :=
  match l with
  | [] => [String c EmptyString]
  | w :: ws => String c w :: ws
  end.

Definition starts_blank (s : string) : bool :=
  match s with
  | EmptyString => true
  | String c _ => Char.isspace c
  end.

(** [s.split()]: the maximal runs of non-whitespace characters. *)
Fixpoint split (s : string) : list string :=
  match s with
  | EmptyString => []
  | String c s' =>
      if Char.isspace c then split s'
      else if starts_blank s' then String c EmptyString :: split s'
      else cons_head c (split s')
  end.

(** [s.split(sep)] for a one-character separator: the fragments between
    the occurrences of [sep], empty ones included. *)
Fixpoint split_on (sep : ascii) (s : string) : list string :=
  match s with
  | EmptyString => [EmptyString]
  | String c s' =>
      if Ascii.eqb c sep then EmptyString :: split_on sep s'
      else cons_head c (split_on sep s')
  end.

(** [sub in s] *)
Fixpoint contains (sub s : string) : bool :=
  prefix sub s ||
  match s with
  | EmptyString => false
  | String _ s' => contains sub s'
  end.

(** [s.count(sub)] for a non-empty [sub]: occurrences counted from the
    left without overlap.  [skip] is the number of characters still
    covered by the last match. *)
Fixpoint count_from (skip : nat) (sub s : string) : nat :=
  match s with
  | EmptyString => 0
  | String _ s' =>
      match skip with
      | S k => count_from k sub s'
      | O => if prefix sub s
             then S (count_from (String.length sub - 1) sub s')
             else count_from 0 sub s'
      end
  end.

Definition count (sub s : string) : nat := count_from 0 sub s.

End Str.

(** ** Outcomes, the random source and the generator monad *)

Inductive exn : Type :=
| ValueError
| IndexError
| KeyError.

(** What a call does: it returns, it raises, or the model of a [while]
    loop ran out of fuel. *)
Inductive outcome (A : Type) : Type :=
| Ok (a : A)
| Raise (e : exn)
| OutOfFuel.

Arguments Ok {A} a.
Arguments Raise {A} e.
Arguments OutOfFuel {A}.

(** The random source: the stream of the draws still to come. *)
Definition rng : Type := nat -> nat.

Definition M (A : Type) : Type := rng -> outcome (A * rng).

Definition ret {A : Type} (a : A) : M A := fun g => Ok (a, g).

Definition bind {A B : Type} (m : M A) (k : A -> M B) : M B :=
  fun g =>
    match m g with
    | Ok (a, g') => k a g'
    | Raise e => Raise e
    | OutOfFuel => OutOfFuel
    end.

Definition raise {A : Type} (e : exn) : M A := fun _ => Raise e.

Definition out_of_fuel {A : Type} : M A := fun _ => OutOfFuel.

Definition lift {A : Type} (o : outcome A) : M A :=
  fun g =>
    match o with
    | Ok a => Ok (a, g)
    | Raise e => Raise e
    | OutOfFuel => OutOfFuel
    end.

Notation "x <- m ;; k" := (bind m (fun x => k))
  (at level 61, m at next level, right associativity).

(** The value of a run, the final random source dropped. *)
Definition value {A : Type} (o : outcome (A * rng)) : outcome A :=
  match o with
  | Ok (a, _) => Ok a
  | Raise e => Raise e
  | OutOfFuel => OutOfFuel
  end.

(** Total correctness: from every random source the computation returns,
    and its value satisfies [P]. *)
Definition returns {A : Type} (m : M A) (P : A -> Prop) : Prop :=
  forall g, exists a g', m g = Ok (a, g') /\ P a.

Module Random.

(** [random._randbelow(n)]: the next draw, reduced into [0, n). *)
Definition randbelow (n : nat) : M nat :=
  fun g => Ok (g 0 mod n, fun k => g (S k)).

(** [random.choice(seq)]: [seq[randbelow(len(seq))]], [IndexError] on an
    empty sequence. *)
Definition choice {A : Type} (seq : list A) : M A :=
  match seq with
  | [] => raise IndexError
  | _ :: _ =>
      k <- randbelow (length seq) ;;
      match nth_error seq k with
      | Some a => ret a
      | None => raise IndexError
      end
  end.

(** [x[i] = v] *)
Fixpoint set_item {A : Type} (i : nat) (v : A) (x : list A) : option (list A) :=
  match x, i with
  | [], _ => None
  | _ :: x', O => Some (v :: x')
  | a :: x', S i' => option_map (cons a) (set_item i' v x')
  end.

(** [x[i], x[j] = x[j], x[i]] *)
Definition swap {A : Type} (i j : nat) (x : list A) : option (list A) :=
  match nth_error x j, nth_error x i with
  | Some xj, Some xi =>
      match set_item i xj x with
      | Some x1 => set_item j xi x1
      | None => None
      end
  | _, _ => None
  end.

(** The loop of [random.shuffle(x)]:
    [for i in reversed(range(1, len(x))): j = randbelow(i + 1); swap]. *)
Fixpoint shuffle_loop {A : Type} (i : nat) (x : list A) : M (list A) :=
  match i with
  | O => ret x
  | S i' =>
      j <- randbelow (i + 1) ;;
      match swap i j x with
      | Some x' => shuffle_loop i' x'
      | None => raise IndexError
      end
  end.

Definition shuffle {A : Type} (x : list A) : M (list A) :=
  shuffle_loop (length x - 1) x.

End Random.

(** ** [str.format] with the single keyword argument [topic] *)

Module Format.

Inductive state : Type :=
| Literal
| AfterOpen
| Field (name : string)
| AfterClose.

Definition emit (c : ascii) (o : outcome string) : outcome string :=
  match o with
  | Ok s => Ok (String c s)
  | other => other
  end.

Definition emit_string (t : string) (o : outcome string) : outcome string :=
  match o with
  | Ok s => Ok (t ++ s)%string
  | other => other
  end.

(** The scanner of [template.format(topic=...)].  A doubled brace is an
    escaped brace, [{name}] is a replacement field; a lone brace is a
    [ValueError], the empty field asks for a positional argument
    ([IndexError]) and every name other than [topic] is a [KeyError].
    Conversions and format specifications are not modelled: the templates
    of the program have none. *)
Fixpoint scan (st : state) (template topic : string) : outcome string :=
  match template with
  | EmptyString =>
      match st with
      | Literal => Ok EmptyString
      | _ => Raise ValueError
      end
  | String c rest =>
      match st with
      | Literal =>
          if Ascii.eqb c "{" then scan AfterOpen rest topic
          else if Ascii.eqb c "}" then scan AfterClose rest topic
          else emit c (scan Literal rest topic)
      | AfterOpen =>
          if Ascii.eqb c "{" then emit c (scan Literal rest topic)
          else if Ascii.eqb c "}" then Raise IndexError
          else scan (Field (String c EmptyString)) rest topic
      | Field name =>
          if Ascii.eqb c "}" then
            if String.eqb name "topic"
            then emit_string topic (scan Literal rest topic)
            else Raise KeyError
          else if Ascii.eqb c "{" then Raise ValueError
          else scan (Field (name ++ String c EmptyString)%string) rest topic
      | AfterClose =>
          if Ascii.eqb c "}" then emit c (scan Literal rest topic)
          else Raise ValueError
      end
  end.

Definition format (template topic : string) : outcome string :=
  scan Literal template topic.

End Format.

(** ** The generator class *)

Definition assignment_templates : list string :=
  [ "Write a comprehensive essay analyzing {topic}. Discuss its key components, significance, and implications.";
    "Compare and contrast different aspects of {topic}. Provide specific examples and explain their relevance.";
    "Evaluate the importance of {topic} in its broader context. Support your arguments with evidence and reasoning.";
    "Examine the relationship between {topic} and related concepts. How do they influence each other?";
    "Create a detailed analysis of {topic}, including its causes, effects, and potential solutions or applications." ].

Definition question_starters : list string :=
  [ "What is the main concept behind";
    "Which of the following best describes";
    "What are the key characteristics of";
    "Which statement is most accurate about";
    "What is the primary purpose of" ].

(** *** extract_key_concepts *)

(** [re.sub(r'[^\w\s]', ' ', text)] *)
Definition re_sub_punctuation (text : string) : string :=
  Str.map (fun c => if Char.isword c || Char.isspace c then c else " "%char) text.

(** The first loop: capitalized words longer than 3 characters. *)
Definition is_capitalized (word : string) : bool :=
  String.eqb (Str.capitalize word) word && (3 <? String.length word).

Definition capitalized_pass (words : list string) : list string :=
  List.map Str.lower (List.filter is_capitalized words).

(** [word_freq]: a dict keeps its keys in the order of their first
    insertion, so it is an association list updated in place. *)
Definition dict : Type := list (string * nat).

Fixpoint dict_get (k : string) (default : nat) (d : dict) : nat :=
  match d with
  | [] => default
  | (k', v) :: d' => if String.eqb k' k then v else dict_get k default d'
  end.

Fixpoint dict_set (k : string) (v : nat) (d : dict) : dict :=
  match d with
  | [] => [(k, v)]
  | (k', v') :: d' =>
      if String.eqb k' k then (k', v) :: d' else (k', v') :: dict_set k v d'
  end.

Definition clean (word : string) : string := Str.strip (Str.lower word).

Definition is_meaningful (clean_word : string) : bool :=
  (4 <? String.length clean_word) && Str.isalpha clean_word.

Definition count_word (word_freq : dict) (word : string) : dict :=
  let clean_word := clean word in
  if is_meaningful clean_word
  then dict_set clean_word (dict_get clean_word 0 word_freq + 1) word_freq
  else word_freq.

Definition count_words (words : list string) : dict :=
  fold_left count_word words [].

(** [sorted(items, key=lambda x: x[1], reverse=True)]: descending by
    count, items of equal count in their original order. *)
Fixpoint insert_desc (x : string * nat) (l : dict) : dict :=
  match l with
  | [] => [x]
  | y :: l' => if snd y <=? snd x then x :: l else y :: insert_desc x l'
  end.

Definition sorted_desc (items : dict) : dict := fold_right insert_desc [] items.

Definition frequent_words (words : list string) : dict :=
  firstn 10 (sorted_desc (count_words words)).

Definition frequency_pass (words : list string) : list string :=
  List.map fst (List.filter (fun p => 1 <? snd p) (frequent_words words)).

(** The list [concepts] just before the final line of the method. *)
Definition candidate_concepts (text : string) : list string :=
  let text := re_sub_punctuation text in
  let sentences := Str.split_on "." text in
  let words := Str.split text in
  capitalized_pass words ++ frequency_pass words.

(** The distinct elements of a list, each at its first occurrence. *)
Fixpoint dedup (l : list string) : list string :=
  match l with
  | [] => []
  | x :: l' => x :: List.filter (fun y => negb (String.eqb y x)) (dedup l')
  end.

(** [list(set(concepts))]: the distinct elements, in the iteration order
    of the set. *)
Definition list_of_set (order : list string -> list string)
    (concepts : list string) : list string :=
  order (dedup concepts).

(** An iteration order rearranges the elements and does nothing else. *)
Definition iteration_order (order : list string -> list string) : Prop :=
  forall l, Permutation (order l) l.

Definition extract_key_concepts (order : list string -> list string)
    (text : string) : list string :=
  firstn 8 (list_of_set order (candidate_concepts text)).

(** The vocabulary of the specification of the extraction. *)

(** The raw tokens of a text. *)
Definition tokens (text : string) : list string :=
  Str.split (re_sub_punctuation text).

(** A capitalized token, as the program tests it with [str.capitalize]. *)
Definition capitalized_token (token : string) : Prop :=
  Str.capitalize token = token /\ 3 < String.length token.

(** A token in title case, as [str.title] would make it. *)
Definition title_cased_token (token : string) : Prop :=
  Str.title token = token /\ 3 < String.length token.

(** How many tokens of [words] have the lowercased form [w]. *)
Definition occurrences (w : string) (words : list string) : nat :=
  count_occ string_dec (List.map Str.lower words) w.

(** The distinct lowercased alphabetic words longer than 4 characters. *)
Definition meaningful_words (words : list string) : list string :=
  dedup (List.filter is_meaningful (List.map Str.lower words)).

(** The meaningful words that occur strictly more often than [w]. *)
Definition outranking (w : string) (words : list string) : list string :=
  List.filter (fun w' => occurrences w words <? occurrences w' words)
              (meaningful_words words).

(** An alphabetic token longer than 4 characters whose lowercased form
    occurs more than once and is outranked by fewer than 10 words. *)
Definition frequent_token (token : string) (words : list string) : Prop :=
  Str.isalpha token = true /\
  4 < String.length token /\
  1 < occurrences (Str.lower token) words /\
  length (outranking (Str.lower token) words) < 10.

(** The dict [d] counts the elements of [ws]: its keys are the distinct
    elements of [ws] and each value is the number of occurrences. *)
Definition counts (d : dict) (ws : list string) : Prop :=
  NoDup (List.map fst d) /\
  (forall k, dict_get k 0 d = count_occ string_dec ws k) /\
  (forall k, In k (List.map fst d) <-> In k ws).

(** Items in descending order of their counts. *)
Definition descending (items : dict) : Prop :=
  StronglySorted (fun x y => snd y <= snd x) items.

(** A non-empty string without whitespace. *)
Definition spaceless (w : string) : Prop :=
  w <> EmptyString /\ Str.existsb Char.isspace w = false.

(** The text holds whitespace only (or nothing). *)
Definition blank (text : string) : Prop :=
  Str.forallb Char.isspace text = true.

(** *** generate_assignments *)

Definition generic_topic : string := "the main topic discussed".

(** [enumerate(l)] *)
Definition enumerate {A : Type} (l : list A) : list (nat * A) :=
  combine (seq 0 (length l)) l.

(** A [for] loop over a list that updates an accumulator. *)
Fixpoint for_each {A S : Type} (l : list A) (body : A -> S -> M S) (s : S) : M S :=
  match l with
  | [] => ret s
  | a :: l' => s' <- body a s ;; for_each l' body s'
  end.

(** [self.assignment_templates[k]] *)
Definition template_at (k : nat) : M string :=
  match nth_error assignment_templates k with
  | Some t => ret t
  | None => raise IndexError
  end.

(** The body of the loop over the selected concepts. *)
Definition concept_assignment (ic : nat * string) (assignments : list string)
  : M (list string) :=
  let (i, concept) := ic in
  template <- template_at (i mod length assignment_templates) ;;
  assignment <- lift (Format.format template (Str.title concept)) ;;
  ret (assignments ++ [assignment]).

Definition concept_assignments (concepts : list string) : M (list string) :=
  match concepts with
  | [] => ret []
  | _ :: _ =>
      let selected_concepts :=
        if 2 <=? length concepts then firstn 2 concepts else concepts in
      for_each (enumerate selected_concepts) concept_assignment []
  end.

(** [[t for t in self.assignment_templates
      if not any(t in a for a in assignments)]] *)
Definition remaining_templates (assignments : list string) : list string :=
  List.filter
    (fun t => negb (List.existsb (fun a => Str.contains t a) assignments))
    assignment_templates.

(** The [while len(assignments) < 2] loop; each turn costs one unit of
    fuel. *)
Fixpoint backfill (fuel : nat) (assignments : list string) : M (list string) :=
  if length assignments <? 2 then
    match fuel with
    | O => out_of_fuel
    | S fuel' =>
        match remaining_templates assignments with
        | [] => ret assignments
        | _ :: _ =>
            template <- Random.choice (remaining_templates assignments) ;;
            assignment <- lift (Format.format template generic_topic) ;;
            backfill fuel' (assignments ++ [assignment])
        end
    end
  else ret assignments.

Definition generate_assignments (fuel : nat) (text : string)
    (concepts : list string) : M (list string) :=
  assignments <- concept_assignments concepts ;;
  assignments <- backfill fuel assignments ;;
  ret (firstn 2 assignments).

(** The text of [s] before the first [c], and the text after it. *)
Fixpoint before (c : ascii) (s : string) : string :=
  match s with
  | EmptyString => EmptyString
  | String x s' => if Ascii.eqb x c then EmptyString else String x (before c s')
  end.

Fixpoint after (c : ascii) (s : string) : string :=
  match s with
  | EmptyString => EmptyString
  | String x s' => if Ascii.eqb x c then s' else after c s'
  end.

Definition is_brace (c : ascii) : bool := Ascii.eqb c "{" || Ascii.eqb c "}".

Definition brace_free (s : string) : bool :=
  Str.forallb (fun c => negb (is_brace c)) s.

Definition starts_with (b : ascii) (s : string) : bool :=
  match s with
  | EmptyString => false
  | String y _ => Ascii.eqb y b
  end.

(** Somewhere in [s] the character [a] is immediately followed by [b]. *)
Fixpoint has_pair (a b : ascii) (s : string) : bool :=
  match s with
  | EmptyString => false
  | String x s' => (Ascii.eqb x a && starts_with b s') || has_pair a b s'
  end.

(** No opening brace of [s] is followed by the letter t, so [s] holds no
    placeholder and none of the templates. *)
Definition placeholder_free (s : string) : Prop := has_pair "{" "t" s = false.

(** The template of index [i mod 5]. *)
Definition template_of (i : nat) : string :=
  nth (i mod length assignment_templates) assignment_templates EmptyString.

(** Position [i] of [assignments] is template [i mod 5] filled with the
    title-cased [concept]. *)
Definition uses_template (i : nat) (concept : string)
    (assignments : list string) : Prop :=
  exists a, nth_error assignments i = Some a /\
            Format.format (template_of i) (Str.title concept) = Ok a.

(** An assignment text: a template filled with the title-cased form of
    some string or with the generic topic. *)
Definition formatted (a : string) : Prop :=
  exists template topic,
    In template assignment_templates /\
    (topic = generic_topic \/ exists concept, topic = Str.title concept) /\
    Format.format template topic = Ok a.

(** *** generate_quiz_questions *)

Record Question : Type := mkQuestion {
  question : string;
  options : list string;
  correct_answer : string
}.

(** The correct answer and the three wrong answers about a concept, for
    the question of index [i]. *)
Definition concept_answers (i : nat) (concept : string) : string * list string :=
  let t := Str.title concept in
  let correct := (t ++ " is a key concept discussed in the text")%string in
  let wrong :=
    if i =? 1 then
      [ (t ++ " has no practical applications")%string;
        (t ++ " is an outdated concept")%string;
        (t ++ " is purely theoretical")%string ]
    else if i =? 2 then
      [ (t ++ " is the least important aspect")%string;
        (t ++ " is a minor detail")%string;
        (t ++ " is incorrectly defined")%string ]
    else
      [ (t ++ " is not mentioned in the context")%string;
        (t ++ " is only briefly referenced")%string;
        (t ++ " is contradicted by the main argument")%string ] in
  (correct, wrong).

Definition generic_question : string :=
  "Based on the text, which statement is most accurate?".

Definition generic_answers : string * list string :=
  ( "The text provides valuable information on the topic",
    [ "The text contradicts itself frequently";
      "The text lacks any coherent structure";
      "The text is purely fictional" ] ).

(** The correct and the wrong answers of question [i]: those of
    [concepts[i]] when [i < len(concepts)], the generic ones otherwise. *)
Definition answers_for (concepts : list string) (i : nat) : string * list string :=
  match nth_error concepts i with
  | Some concept => concept_answers i concept
  | None => generic_answers
  end.

Definition intended_answer (concepts : list string) (i : nat) : string :=
  fst (answers_for concepts i).

Definition question_text (concepts : list string) (i : nat) : M string :=
  match nth_error concepts i with
  | Some concept =>
      question_start <- Random.choice question_starters ;;
      ret (question_start ++ " " ++ concept ++ "?")%string
  | None => ret generic_question
  end.

(** [l.index(v)] *)
Fixpoint index (v : string) (l : list string) : option nat :=
  match l with
  | [] => None
  | x :: l' => if String.eqb x v then Some 0 else option_map S (index v l')
  end.

Definition index_of (v : string) (l : list string) : M nat :=
  match index v l with
  | Some k => ret k
  | None => raise ValueError
  end.

(** [chr(n)] as a one-character string. *)
Definition chr (n : nat) : string := String (Char.chr n) EmptyString.

(** One turn of the loop [for i in range(3)]. *)
Definition quiz_question (concepts : list string) (i : nat)
    (questions : list Question) : M (list Question) :=
  question <- question_text concepts i ;;
  let (correct_answer, wrong_answers) := answers_for concepts i in
  all_answers <- Random.shuffle (correct_answer :: wrong_answers) ;;
  correct_index <- index_of correct_answer all_answers ;;
  ret (questions ++
       [ {| question := question;
            options := all_answers;
            correct_answer := chr (65 + correct_index) |} ]).

(** The sentences computed on entry (never used afterwards). *)
Definition long_sentences (text : string) : list string :=
  List.map Str.strip
    (List.filter (fun s => 20 <? String.length (Str.strip s))
                 (Str.split_on "." text)).

Definition generate_quiz_questions (text : string) (concepts : list string)
  : M (list Question) :=
  let sentences := long_sentences text in
  for_each (seq 0 3) (quiz_question concepts) [].

(** The labels, and the position each one stands for. *)
Definition labels : list string := ["A"; "B"; "C"; "D"].

Definition label_index (label : string) : option nat :=
  index label labels.

(** The options of a question hold the answer once among four. *)
Definition options_ok (answer : string) (q : Question) : Prop :=
  length (options q) = 4 /\
  count_occ string_dec (options q) answer = 1.

(** The label of a question is one of the four and points at the answer. *)
Definition label_ok (answer : string) (q : Question) : Prop :=
  In (correct_answer q) labels /\
  exists k, label_index (correct_answer q) = Some k /\
            nth_error (options q) k = Some answer.

(** *** main: the synthesized text and the statistics *)

Definition nl : string := String (Char.chr 10) EmptyString.

Definition indent : string := "                ".

(** The f-string of the topic input. *)
Definition synthesize_text (topic : string) : string :=
  (nl
  ++ indent ++ topic ++ " is an important subject that involves multiple key concepts and principles. " ++ nl
  ++ indent ++ "Understanding " ++ topic ++ " requires knowledge of its fundamental components, processes, and applications." ++ nl
  ++ indent ++ "The study of " ++ topic ++ " encompasses various aspects including its historical development, " ++ nl
  ++ indent ++ "current applications, and future implications. Key elements of " ++ topic ++ " include its " ++ nl
  ++ indent ++ "theoretical foundations, practical implementations, and relationship to other related fields." ++ nl
  ++ indent ++ "Researchers and practitioners in " ++ topic ++ " continue to explore new methodologies and " ++ nl
  ++ indent ++ "approaches to advance our understanding of this important area." ++ nl
  ++ indent)%string.

(** [if topic: ... else: input_text = ""] *)
Definition topic_input (topic : string) : string :=
  if Str.is_empty topic then "" else synthesize_text topic.

(** [len(input_text.split())] *)
Definition word_count (input_text : string) : nat :=
  length (Str.split input_text).

(** [len([s for s in input_text.split('.') if s.strip()])] *)
Definition sentence_count (input_text : string) : nat :=
  length (List.filter (fun s => negb (Str.is_empty (Str.strip s)))
                      (Str.split_on "." input_text)).

(** ** The statistics as the specification words them *)

(** A token starts at every non-whitespace character that is the first
    of the text or follows a whitespace character. *)
Fixpoint token_starts (previous_is_space : bool) (s : string) : nat :=
  match s with
  | EmptyString => 0
  | String c s' =>
      (if previous_is_space && negb (Char.isspace c) then 1 else 0)
      + token_starts (Char.isspace c) s'
  end.

Definition spec_word_count (input_text : string) : nat :=
  token_starts true input_text.

(** The count of non-empty fragments of a split on the full stop. *)
Definition spec_sentence_count (input_text : string) : nat :=
  length (List.filter (fun s => negb (Str.is_empty s))
                      (Str.split_on "." input_text)).

Definition nonspace (c : ascii) : bool := negb (Char.isspace c).

(** The count of fragments holding a non-whitespace character. *)
Definition nonblank_fragment_count (input_text : string) : nat :=
  length (List.filter (Str.existsb nonspace) (Str.split_on "." input_text)).

(** *** main: the guard of the pipeline *)

(** [input_text.strip()] as a condition. *)
Definition has_input (input_text : string) : bool :=
  negb (Str.is_empty (Str.strip input_text)).

Inductive page : Type :=
| Results
| Warning
| Instructions.

(** The three branches of [main] after the sidebar. *)
Definition main_page (generate_button : bool) (input_text : string) : page :=
  if generate_button && has_input input_text then Results
  else if generate_button then Warning
  else Instructions.

(** ** Vocabulary of the further properties *)

(** The number of occurrences of a character. *)
Fixpoint count_char (c : ascii) (s : string) : nat :=
  match s with
  | EmptyString => 0
  | String x s' => (if Ascii.eqb x c then 1 else 0) + count_char c s'
  end.

(** Whether the character before the end of [s] is whitespace, [b]
    standing for the character before [s]. *)
Fixpoint last_space (b : bool) (s : string) : bool :=
  match s with
  | EmptyString => b
  | String c s' => last_space (Char.isspace c) s'
  end.

(** A word character that is not an upper-case letter. *)
Definition lower_word_char (c : ascii) : bool :=
  Char.isword c && negb (Char.isupper c).

(** The random source after one draw. *)
Definition shift (g : rng) : rng := fun k => g (S k).

(** Template [k] with [topic] in the place of its field. *)
Definition fill (k : nat) (topic : string) : string :=
  (before "{" (nth k assignment_templates EmptyString)
   ++ topic
   ++ after "}" (nth k assignment_templates EmptyString))%string.

(** The question about [concepts[i]] opens with one of the starters; the
    question without a concept is the generic one. *)
Definition question_ok (concepts : list string) (i : nat) (q : Question) : Prop :=
  match nth_error concepts i with
  | Some concept =>
      exists starter, In starter question_starters /\
        question q = (starter ++ " " ++ concept ++ "?")%string
  | None => question q = generic_question
  end.

(** The options are the correct answer and the three wrong ones, each
    once, and only the labelled position holds the correct answer. *)
Definition options_exact (concepts : list string) (i : nat) (q : Question) : Prop :=
  Permutation (fst (answers_for concepts i) :: snd (answers_for concepts i))
              (options q) /\
  NoDup (options q) /\
  forall k, nth_error (options q) k = Some (intended_answer concepts i) <->
            label_index (correct_answer q) = Some k.

(** The pieces of the f-string of the topic input, between the fields. *)
Definition boilerplate : list string :=
  [ (nl ++ indent)%string;
    (" is an important subject that involves multiple key concepts and principles. "
     ++ nl ++ indent ++ "Understanding ")%string;
    (" requires knowledge of its fundamental components, processes, and applications."
     ++ nl ++ indent ++ "The study of ")%string;
    (" encompasses various aspects including its historical development, "
     ++ nl ++ indent
     ++ "current applications, and future implications. Key elements of ")%string;
    (" include its "
     ++ nl ++ indent
     ++ "theoretical foundations, practical implementations, and relationship to other related fields."
     ++ nl ++ indent ++ "Researchers and practitioners in ")%string;
    (" continue to explore new methodologies and "
     ++ nl ++ indent
     ++ "approaches to advance our understanding of this important area."
     ++ nl ++ indent)%string ].

(** The pieces with [topic] between each two of them. *)
Fixpoint weave (topic : string) (pieces : list string) : string :=
  match pieces with
  | [] => EmptyString
  | p :: rest =>
      match rest with
      | [] => p
      | _ :: _ => (p ++ topic ++ weave topic rest)%string
      end
  end.

(** A piece that starts and ends with whitespace. *)
Definition padded (p : string) : bool :=
  Str.starts_blank p && last_space false p.

(** A string of 7-bit characters. *)
Definition is_ascii (s : string) : bool :=
  Str.forallb (fun c => Char.ord c <? 128) s.

(** * Properties *)

(** ** The string library *)

Example split_words : Str.split "  ab c  d " = ["ab"; "c"; "d"].
Proof. reflexivity. Qed.

Example split_on_stop : Str.split_on "." "a.b..c." = ["a"; "b"; ""; "c"; ""].
Proof. reflexivity. Qed.

Example title_after_digit : Str.title "ab1c de" = "Ab1C De".
Proof. reflexivity. Qed.

Example strip_both_ends : Str.strip "  a b  " = "a b".
Proof. reflexivity. Qed.

(** Case analysis over the 256 characters. *)
Ltac each_char c := destruct c as [[] [] [] [] [] [] [] []]; vm_compute; try reflexivity; try discriminate; auto.

Lemma token_starts_false (s : string) :
  token_starts true s = token_starts false s + (if Str.starts_blank s then 0 else 1).
Proof.
  destruct s as [|c s]; simpl; [reflexivity|].
  destruct (Char.isspace c); simpl; lia.
Qed.

Lemma split_nonempty (s : string) :
  Str.starts_blank s = false -> Str.split s <> [].
Proof.
  destruct s as [|c s]; simpl; [discriminate|].
  intros ->. destruct (Str.starts_blank s); [discriminate|].
  destruct (Str.split s); discriminate.
Qed.

Lemma cons_head_length (c : ascii) (l : list string) :
  l <> [] -> length (Str.cons_head c l) = length l.
Proof. destruct l; [congruence | reflexivity]. Qed.

Lemma split_length (s : string) : length (Str.split s) = token_starts true s.
Proof.
  induction s as [|c s IH]; [reflexivity|].
  cbn [Str.split token_starts].
  destruct (Char.isspace c) eqn:Hc; cbn [andb negb]; [exact IH|].
  rewrite token_starts_false in IH.
  destruct (Str.starts_blank s) eqn:Hs.
  - cbn [length]. lia.
  - rewrite cons_head_length by (apply split_nonempty; exact Hs). lia.
Qed.

Lemma lstrip_nonspace (s : string) :
  Str.existsb nonspace (Str.lstrip s) = Str.existsb nonspace s.
Proof.
  induction s as [|c s IH]; [reflexivity|].
  cbn [Str.lstrip]. destruct (Char.isspace c) eqn:Hc; [|reflexivity].
  cbn [Str.existsb]. unfold nonspace at 2. rewrite Hc. exact IH.
Qed.

Lemma rstrip_empty (s : string) :
  Str.is_empty (Str.rstrip s) = negb (Str.existsb nonspace s).
Proof.
  induction s as [|c s IH]; [reflexivity|].
  cbn [Str.rstrip Str.existsb]. unfold nonspace at 1.
  destruct (Str.rstrip s); cbn [Str.is_empty] in IH.
  - destruct (Str.existsb nonspace s); [discriminate|].
    destruct (Char.isspace c); reflexivity.
  - destruct (Str.existsb nonspace s); [|discriminate].
    rewrite orb_true_r. reflexivity.
Qed.

Lemma strip_empty (s : string) :
  negb (Str.is_empty (Str.strip s)) = Str.existsb nonspace s.
Proof.
  unfold Str.strip. rewrite rstrip_empty, negb_involutive.
  apply lstrip_nonspace.
Qed.

(** ** The statistics of the analysis tab *)

Lemma filter_ext_length {A : Type} (f g : A -> bool) (l : list A) :
  (forall a, f a = g a) -> length (filter f l) = length (filter g l).
Proof.
  intros Hfg. induction l as [|a l IH]; [reflexivity|].
  cbn [filter]. rewrite Hfg. destruct (g a); cbn [length]; congruence.
Qed.

(** C9, as stated, fails: in the text ["Hello world. "] the split on the
    full stop gives the two non-empty fragments ["Hello world"] and [" "],
    while the reported sentence count is 1, the fragment [" "] being
    dropped by the [s.strip()] test. *)
Lemma C9_whitespace_fragment_not_counted :
  ~ (word_count "Hello world. " = spec_word_count "Hello world. " /\
     sentence_count "Hello world. " = spec_sentence_count "Hello world. ").
Proof. vm_compute. intros [_ H]. discriminate H. Qed.

(** C9, amended: for every input text the reported word count is the
    number of whitespace-delimited tokens of the text, and the reported
    sentence count is the number of fragments of the split on ['.'] that
    hold at least one non-whitespace character. *)
Theorem C9_statistics (input_text : string) :
  word_count input_text = spec_word_count input_text /\
  sentence_count input_text = nonblank_fragment_count input_text.
Proof.
  split.
  - apply split_length.
  - unfold sentence_count, nonblank_fragment_count.
    apply filter_ext_length. intros s. apply strip_empty.
Qed.

(** ** The generator monad *)

Lemma returns_ret {A : Type} (a : A) (P : A -> Prop) : P a -> returns (ret a) P.
Proof. intros HP g. exists a, g. split; [reflexivity | exact HP]. Qed.

Lemma returns_bind {A B : Type} (m : M A) (k : A -> M B)
    (P : A -> Prop) (Q : B -> Prop) :
  returns m P -> (forall a, P a -> returns (k a) Q) -> returns (bind m k) Q.
Proof.
  intros Hm Hk g. destruct (Hm g) as (a & g1 & Em & Pa).
  destruct (Hk a Pa g1) as (b & g2 & Ek & Qb).
  exists b, g2. unfold bind. rewrite Em. split; assumption.
Qed.

Lemma returns_weaken {A : Type} (m : M A) (P Q : A -> Prop) :
  returns m P -> (forall a, P a -> Q a) -> returns m Q.
Proof.
  intros Hm HPQ g. destruct (Hm g) as (a & g' & E & Pa).
  exists a, g'. split; [exact E | apply HPQ, Pa].
Qed.

Lemma returns_lift {A : Type} (a : A) (P : A -> Prop) :
  P a -> returns (lift (Ok a)) P.
Proof. intros HP g. exists a, g. split; [reflexivity | exact HP]. Qed.

(** ** random.choice and random.shuffle *)

Lemma randbelow_returns (n : nat) :
  n <> 0 -> returns (Random.randbelow n) (fun k => k < n).
Proof.
  intros Hn g. eexists _, _. split; [reflexivity|].
  apply Nat.mod_upper_bound, Hn.
Qed.

Lemma choice_returns {A : Type} (seq : list A) :
  seq <> [] -> returns (Random.choice seq) (fun a => In a seq).
Proof.
  intros Hne. destruct seq as [|a0 seq0]; [congruence|].
  unfold Random.choice. set (seq := a0 :: seq0).
  eapply returns_bind; [apply randbelow_returns; discriminate|].
  intros k Hk. cbv beta.
  destruct (nth_error seq k) as [a|] eqn:Ek.
  - apply returns_ret. eapply nth_error_In, Ek.
  - apply nth_error_None in Ek. cbv beta in Hk. unfold seq in Ek.
    exfalso. apply (Nat.lt_irrefl k).
    eapply Nat.lt_le_trans; [exact Hk | exact Ek].
Qed.

Lemma set_item_middle {A : Type} (l1 l2 : list A) (a v : A) :
  Random.set_item (length l1) v (l1 ++ a :: l2) = Some (l1 ++ v :: l2).
Proof.
  induction l1 as [|b l1 IH]; [reflexivity|].
  cbn [length app Random.set_item]. rewrite IH. reflexivity.
Qed.

Lemma swap_permutation {A : Type} (i j : nat) (x : list A) :
  j <= i -> i < length x ->
  exists x', Random.swap i j x = Some x' /\ Permutation x x'.
Proof.
  intros Hji Hi.
  destruct (nth_error x i) as [xi|] eqn:Ei; [|apply nth_error_None in Ei; lia].
  destruct (nth_error_split x i Ei) as (l1 & l2 & -> & <-).
  unfold Random.swap. rewrite Ei.
  destruct (Nat.eq_dec j (length l1)) as [->|Hne].
  - rewrite Ei. rewrite !set_item_middle.
    eexists. split; reflexivity.
  - assert (Hj : j < length l1) by lia.
    rewrite nth_error_app1 by exact Hj.
    destruct (nth_error l1 j) as [xj|] eqn:Ej; [|apply nth_error_None in Ej; lia].
    destruct (nth_error_split l1 j Ej) as (m1 & m2 & -> & <-).
    rewrite set_item_middle.
    rewrite <- app_assoc. cbn [app].
    rewrite set_item_middle. eexists. split; [reflexivity|].
    rewrite <- app_assoc. cbn [app].
    apply Permutation_app_head.
    transitivity (xj :: xi :: m2 ++ l2).
    { apply perm_skip, Permutation_sym, Permutation_middle. }
    transitivity (xi :: xj :: m2 ++ l2); [apply perm_swap|].
    apply perm_skip, Permutation_middle.
Qed.

Lemma shuffle_loop_returns {A : Type} (i : nat) (x : list A) :
  i < length x -> returns (Random.shuffle_loop i x) (Permutation x).
Proof.
  revert x. induction i as [|i IH]; intros x Hi.
  - apply returns_ret. reflexivity.
  - cbn [Random.shuffle_loop].
    eapply returns_bind; [apply randbelow_returns; lia|].
    intros j Hj. cbv beta in Hj |- *.
    destruct (swap_permutation (S i) j x) as (x' & -> & Hp); [lia | exact Hi |].
    eapply returns_weaken.
    + apply IH. rewrite <- (Permutation_length Hp). lia.
    + intros y Hy. etransitivity; eassumption.
Qed.

Lemma shuffle_returns {A : Type} (x : list A) :
  returns (Random.shuffle x) (Permutation x).
Proof.
  unfold Random.shuffle. destruct x as [|a x].
  - apply returns_ret. reflexivity.
  - apply shuffle_loop_returns. cbn [length]. lia.
Qed.

(** ** The quiz generator *)

Lemma append_inv_head (p a b : string) : (p ++ a)%string = (p ++ b)%string -> a = b.
Proof.
  induction p as [|c p IH]; cbn [append]; intros H; [exact H|].
  injection H as H. apply IH, H.
Qed.

Ltac differ_after_prefix :=
  let H := fresh in
  intros H; apply append_inv_head in H; discriminate H.

Lemma concept_answers_distinct (i : nat) (concept : string) :
  ~ In (fst (concept_answers i concept)) (snd (concept_answers i concept)) /\
  length (snd (concept_answers i concept)) = 3.
Proof.
  unfold concept_answers. cbv zeta. cbn [fst snd].
  destruct (i =? 1); [|destruct (i =? 2)];
    (split; [|reflexivity]); cbn [In];
    intros [H|[H|[H|[]]]]; symmetry in H; revert H; differ_after_prefix.
Qed.

Lemma answers_for_distinct (concepts : list string) (i : nat) :
  ~ In (fst (answers_for concepts i)) (snd (answers_for concepts i)) /\
  length (snd (answers_for concepts i)) = 3.
Proof.
  unfold answers_for. destruct (nth_error concepts i) as [concept|].
  - apply concept_answers_distinct.
  - split; [|reflexivity]. cbn. intros [H|[H|[H|[]]]]; discriminate H.
Qed.

Lemma index_found (v : string) (l : list string) :
  In v l -> exists k, index v l = Some k /\ nth_error l k = Some v.
Proof.
  induction l as [|x l IH]; [intros []|].
  intros Hin. cbn [index]. destruct (String.eqb x v) eqn:E.
  - apply String.eqb_eq in E. subst x. exists 0. split; reflexivity.
  - apply String.eqb_neq in E. destruct Hin as [->|Hin]; [congruence|].
    destruct (IH Hin) as (k & -> & Hk). exists (S k). split; [reflexivity | exact Hk].
Qed.

Lemma label_of_position (k : nat) :
  k < 4 -> In (chr (65 + k)) labels /\ label_index (chr (65 + k)) = Some k.
Proof.
  intros Hk.
  destruct k as [|[|[|[|k]]]]; [| | | |lia]; (split; [cbn; auto | reflexivity]).
Qed.

Lemma question_text_returns (concepts : list string) (i : nat) :
  returns (question_text concepts i) (fun _ => True).
Proof.
  unfold question_text. destruct (nth_error concepts i) as [concept|].
  - eapply returns_bind; [apply choice_returns; discriminate|].
    intros q _. apply returns_ret. exact I.
  - apply returns_ret. exact I.
Qed.

Lemma quiz_question_returns (concepts : list string) (i : nat)
    (questions : list Question) :
  returns (quiz_question concepts i questions)
    (fun qs => exists q, qs = questions ++ [q] /\
                         options_ok (intended_answer concepts i) q /\
                         label_ok (intended_answer concepts i) q).
Proof.
  unfold quiz_question, intended_answer.
  destruct (answers_for_distinct concepts i) as [Hnotin Hlen].
  destruct (answers_for concepts i) as [correct wrong]. cbn [fst snd] in *.
  eapply returns_bind; [apply question_text_returns|]. intros qtext _.
  eapply returns_bind; [apply shuffle_returns|]. intros all_answers Hperm.
  assert (Hin : In correct all_answers).
  { eapply Permutation_in; [exact Hperm | left; reflexivity]. }
  destruct (index_found correct all_answers Hin) as (k & Ek & Hk).
  unfold index_of. rewrite Ek. unfold bind, ret. intros g.
  eexists _, g. split; [reflexivity|]. eexists. split; [reflexivity|].
  assert (Hlen4 : length all_answers = 4).
  { rewrite <- (Permutation_length Hperm). cbn [length]. rewrite Hlen. reflexivity. }
  assert (Hk4 : k < 4).
  { rewrite <- Hlen4. apply nth_error_Some. rewrite Hk. discriminate. }
  destruct (label_of_position k Hk4) as [Hlab Hidx].
  unfold options_ok, label_ok. cbn [options correct_answer].
  repeat split; try assumption.
  - rewrite <- (proj1 (Permutation_count_occ string_dec _ _) Hperm correct).
    rewrite count_occ_cons_eq by reflexivity.
    rewrite (proj1 (count_occ_not_In string_dec wrong correct) Hnotin). reflexivity.
  - exists k. split; assumption.
Qed.

Lemma generate_quiz_questions_returns (text : string) (concepts : list string) :
  returns (generate_quiz_questions text concepts)
    (fun qs => exists q0 q1 q2, qs = [q0; q1; q2] /\
       (options_ok (intended_answer concepts 0) q0 /\ label_ok (intended_answer concepts 0) q0) /\
       (options_ok (intended_answer concepts 1) q1 /\ label_ok (intended_answer concepts 1) q1) /\
       (options_ok (intended_answer concepts 2) q2 /\ label_ok (intended_answer concepts 2) q2)).
Proof.
  unfold generate_quiz_questions. cbv zeta. cbn [seq for_each].
  eapply returns_bind; [apply quiz_question_returns|].
  intros ? (q0 & -> & H0). cbn [app].
  eapply returns_bind; [apply quiz_question_returns|].
  intros ? (q1 & -> & H1). cbn [app].
  eapply returns_bind; [apply quiz_question_returns|].
  intros ? (q2 & -> & H2). cbn [app].
  apply returns_ret. exists q0, q1, q2. auto.
Qed.

(** C1: for every text, every list of concepts and every random source,
    generate_quiz_questions returns exactly three questions, and the
    options of each have length 4 and hold the correct answer of that
    question exactly once. *)
Theorem C1_three_questions_four_options (text : string)
    (concepts : list string) (g : rng) :
  exists (qs : list Question) (g' : rng),
    generate_quiz_questions text concepts g = Ok (qs, g') /\
    length qs = 3 /\
    Forall2 options_ok (List.map (intended_answer concepts) (seq 0 3)) qs.
Proof.
  destruct (generate_quiz_questions_returns text concepts g)
    as (qs & g' & E & q0 & q1 & q2 & -> & [H0 _] & [H1 _] & [H2 _]).
  exists [q0; q1; q2], g'. split; [exact E|]. split; [reflexivity|].
  cbn [seq List.map].
  apply Forall2_cons; [exact H0|]. apply Forall2_cons; [exact H1|].
  apply Forall2_cons; [exact H2|]. apply Forall2_nil.
Qed.

(** C2: for every input and every random source, the label recorded with
    each question is one of 'A', 'B', 'C', 'D', and the option at the
    position the label stands for (A=0, B=1, C=2, D=3) in the shuffled
    options is the intended correct answer of that question. *)
Theorem C2_label_points_at_correct_answer (text : string)
    (concepts : list string) (g : rng) :
  exists (qs : list Question) (g' : rng),
    generate_quiz_questions text concepts g = Ok (qs, g') /\
    Forall2 label_ok (List.map (intended_answer concepts) (seq 0 3)) qs.
Proof.
  destruct (generate_quiz_questions_returns text concepts g)
    as (qs & g' & E & q0 & q1 & q2 & -> & [_ H0] & [_ H1] & [_ H2]).
  exists [q0; q1; q2], g'. split; [exact E|].
  cbn [seq List.map].
  apply Forall2_cons; [exact H0|]. apply Forall2_cons; [exact H1|].
  apply Forall2_cons; [exact H2|]. apply Forall2_nil.
Qed.

(** ** str.format on the templates *)

Lemma emit_emit_string (c : ascii) (t : string) (o : outcome string) :
  Format.emit c (Format.emit_string t o) = Format.emit_string (String c t) o.
Proof. destruct o; reflexivity. Qed.

Lemma scan_literal_prefix (pre rest topic : string) :
  brace_free pre = true ->
  Format.scan Format.Literal (pre ++ rest) topic
  = Format.emit_string pre (Format.scan Format.Literal rest topic).
Proof.
  induction pre as [|c pre IH]; intros Hfree.
  - cbn [append]. destruct (Format.scan _ rest topic); reflexivity.
  - cbn [brace_free Str.forallb] in Hfree. apply andb_prop in Hfree.
    destruct Hfree as [Hc Hpre]. unfold is_brace in Hc.
    apply negb_true_iff, orb_false_iff in Hc. destruct Hc as [Ho Hcl].
    cbn [append Format.scan]. rewrite Ho, Hcl, (IH Hpre).
    apply emit_emit_string.
Qed.

Lemma scan_literal_brace_free (s topic : string) :
  brace_free s = true -> Format.scan Format.Literal s topic = Ok s.
Proof.
  induction s as [|c s IH]; intros Hfree; [reflexivity|].
  cbn [brace_free Str.forallb] in Hfree. apply andb_prop in Hfree.
  destruct Hfree as [Hc Hs]. unfold is_brace in Hc.
  apply negb_true_iff, orb_false_iff in Hc. destruct Hc as [Ho Hcl].
  cbn [Format.scan]. rewrite Ho, Hcl, (IH Hs). reflexivity.
Qed.

Lemma format_fill (pre suf topic : string) :
  brace_free pre = true -> brace_free suf = true ->
  Format.format (pre ++ "{topic}" ++ suf) topic = Ok (pre ++ topic ++ suf)%string.
Proof.
  intros Hpre Hsuf. unfold Format.format.
  rewrite scan_literal_prefix by exact Hpre.
  cbn. rewrite scan_literal_brace_free by exact Hsuf. reflexivity.
Qed.

(** What the five templates are made of. *)
Lemma template_cut (t : string) :
  In t assignment_templates ->
  t = (before "{" t ++ "{topic}" ++ after "}" t)%string /\
  brace_free (before "{" t) = true /\
  brace_free (after "}" t) = true /\
  starts_with "t" (after "}" t) = false /\
  has_pair "{" "t" t = true.
Proof.
  intros Hin. cbn [assignment_templates In] in Hin.
  repeat (destruct Hin as [<-|Hin]; [repeat split; reflexivity|]).
  destruct Hin.
Qed.

Lemma format_template (t topic : string) :
  In t assignment_templates ->
  Format.format t topic = Ok (before "{" t ++ topic ++ after "}" t)%string.
Proof.
  intros Hin. destruct (template_cut t Hin) as (Et & Hpre & Hsuf & _).
  rewrite Et at 1. apply format_fill; assumption.
Qed.

(** ** No template survives the formatting *)

Lemma starts_with_prefix (b : ascii) (sub s : string) :
  prefix sub s = true -> starts_with b sub = true -> starts_with b s = true.
Proof.
  destruct sub as [|x sub]; [discriminate 2|].
  destruct s as [|y s]; [discriminate 1|].
  cbn [prefix starts_with]. destruct (ascii_dec x y) as [->|]; [auto | discriminate].
Qed.

Lemma has_pair_prefix (a b : ascii) (sub s : string) :
  prefix sub s = true -> has_pair a b sub = true -> has_pair a b s = true.
Proof.
  revert s. induction sub as [|x sub IH]; intros s Hp Hsub; [discriminate Hsub|].
  destruct s as [|y s]; [discriminate Hp|].
  cbn [prefix] in Hp. destruct (ascii_dec x y) as [->|]; [|discriminate Hp].
  cbn [has_pair] in *. apply orb_true_iff in Hsub. apply orb_true_iff.
  destruct Hsub as [Hhead|Htail].
  - left. apply andb_prop in Hhead. destruct Hhead as [-> Hb].
    cbn [andb]. eapply starts_with_prefix; eassumption.
  - right. apply IH; assumption.
Qed.

Lemma has_pair_contains (a b : ascii) (sub s : string) :
  Str.contains sub s = true -> has_pair a b sub = true -> has_pair a b s = true.
Proof.
  intros Hc Hsub. induction s as [|y s IH].
  - cbn [Str.contains] in Hc. rewrite orb_false_r in Hc.
    eapply has_pair_prefix; eassumption.
  - cbn [Str.contains] in Hc. apply orb_true_iff in Hc. destruct Hc as [Hp|Hc].
    + eapply has_pair_prefix; eassumption.
    + cbn [has_pair]. rewrite (IH Hc). apply orb_true_r.
Qed.

Lemma has_pair_after_clean (a b : ascii) (pre r : string) :
  Str.forallb (fun c => negb (Ascii.eqb c a)) pre = true ->
  has_pair a b (pre ++ r) = has_pair a b r.
Proof.
  induction pre as [|c pre IH]; intros Hclean; [reflexivity|].
  cbn [Str.forallb] in Hclean. apply andb_prop in Hclean.
  destruct Hclean as [Hc Hpre]. apply negb_true_iff in Hc.
  cbn [append has_pair]. rewrite Hc. cbn [andb orb]. apply IH, Hpre.
Qed.

Lemma has_pair_append (a b : ascii) (t suf : string) :
  has_pair a b t = false -> starts_with b suf = false ->
  has_pair a b suf = false -> has_pair a b (t ++ suf) = false.
Proof.
  intros Ht Hb Hsuf. induction t as [|c t IH]; [exact Hsuf|].
  cbn [has_pair] in Ht. apply orb_false_iff in Ht. destruct Ht as [Hhead Ht].
  cbn [append has_pair]. rewrite (IH Ht), orb_false_r.
  destruct (Ascii.eqb c a); [|reflexivity]. cbn [andb] in *.
  destruct t as [|d t]; [exact Hb | exact Hhead].
Qed.

Lemma brace_free_clean (s : string) :
  brace_free s = true ->
  Str.forallb (fun c => negb (Ascii.eqb c "{")) s = true.
Proof.
  induction s as [|c s IH]; [reflexivity|].
  cbn [brace_free Str.forallb]. intros H. apply andb_prop in H.
  destruct H as [Hc Hs]. unfold is_brace in Hc.
  apply negb_true_iff, orb_false_iff in Hc. destruct Hc as [-> _].
  exact (IH Hs).
Qed.

Lemma brace_free_no_pair (s : string) :
  brace_free s = true -> has_pair "{" "t" s = false.
Proof.
  intros H.
  assert (E : (s ++ "")%string = s).
  { clear H. induction s as [|c s IH]; [reflexivity|]. cbn [append]. rewrite IH. reflexivity. }
  rewrite <- E. rewrite has_pair_after_clean by (apply brace_free_clean, H).
  reflexivity.
Qed.

Lemma cased_brace (flag : bool) (c : ascii) :
  (if flag then Char.lower c else Char.upper c) = "{"%char -> Char.isalpha c = false.
Proof. destruct flag; each_char c. Qed.

Lemma upper_not_t (c : ascii) : Ascii.eqb (Char.upper c) "t" = false.
Proof. each_char c. Qed.

Lemma title_placeholder_free (previous_is_cased : bool) (s : string) :
  placeholder_free (Str.title_from previous_is_cased s).
Proof.
  unfold placeholder_free. revert previous_is_cased.
  induction s as [|c s IH]; intros flag; [reflexivity|].
  cbn [Str.title_from has_pair]. rewrite IH, orb_false_r.
  destruct (Ascii.eqb _ "{") eqn:E; [|reflexivity]. cbn [andb].
  apply Ascii.eqb_eq, cased_brace in E. rewrite E.
  destruct s as [|d s]; [reflexivity|].
  cbn [Str.title_from starts_with]. apply upper_not_t.
Qed.

Lemma filled_placeholder_free (t topic : string) :
  In t assignment_templates -> placeholder_free topic ->
  placeholder_free (before "{" t ++ topic ++ after "}" t).
Proof.
  intros Hin Htopic. destruct (template_cut t Hin) as (_ & Hpre & Hsuf & Hstart & _).
  unfold placeholder_free.
  rewrite has_pair_after_clean by (apply brace_free_clean, Hpre).
  apply has_pair_append; [exact Htopic | exact Hstart |].
  apply brace_free_no_pair, Hsuf.
Qed.

Lemma formatted_placeholder_free (a : string) :
  formatted a -> placeholder_free a.
Proof.
  intros (t & topic & Hin & Htopic & E).
  rewrite (format_template t topic Hin) in E. injection E as <-.
  apply filled_placeholder_free; [exact Hin|].
  destruct Htopic as [->|[concept ->]]; [reflexivity|].
  apply title_placeholder_free.
Qed.

Lemma placeholder_free_no_template (t a : string) :
  In t assignment_templates -> placeholder_free a -> Str.contains t a = false.
Proof.
  intros Hin Ha. destruct (template_cut t Hin) as (_ & _ & _ & _ & Hpair).
  destruct (Str.contains t a) eqn:E; [|reflexivity].
  unfold placeholder_free in Ha.
  rewrite (has_pair_contains "{" "t" t a E Hpair) in Ha. discriminate Ha.
Qed.

Lemma placeholder_free_no_placeholder (a : string) :
  placeholder_free a -> Str.contains "{topic}" a = false.
Proof.
  intros Ha. destruct (Str.contains "{topic}" a) eqn:E; [|reflexivity].
  unfold placeholder_free in Ha.
  rewrite (has_pair_contains "{" "t" "{topic}" a E eq_refl) in Ha. discriminate Ha.
Qed.

Lemma filter_all {A : Type} (f : A -> bool) (l : list A) :
  (forall x, In x l -> f x = true) -> filter f l = l.
Proof.
  induction l as [|x l IH]; intros H; [reflexivity|].
  cbn [filter]. rewrite (H x (or_introl eq_refl)). f_equal.
  apply IH. intros y Hy. apply H. right. exact Hy.
Qed.

Lemma remaining_templates_all (assignments : list string) :
  Forall placeholder_free assignments ->
  remaining_templates assignments = assignment_templates.
Proof.
  intros Hall. unfold remaining_templates. apply filter_all.
  intros t Hin. apply negb_true_iff.
  induction Hall as [|a l Ha Hl IH]; [reflexivity|].
  cbn [List.existsb]. rewrite IH, orb_false_r.
  apply placeholder_free_no_template; assumption.
Qed.

(** ** The assignment generator *)

Lemma template_of_in (i : nat) : In (template_of i) assignment_templates.
Proof.
  unfold template_of. apply nth_In. apply Nat.mod_upper_bound. discriminate.
Qed.

Lemma concept_assignment_returns (i : nat) (concept : string)
    (assignments : list string) :
  returns (concept_assignment (i, concept) assignments)
    (fun r => exists a, r = assignments ++ [a] /\
                        Format.format (template_of i) (Str.title concept) = Ok a /\
                        formatted a).
Proof.
  unfold concept_assignment, template_at.
  assert (Hlt : i mod length assignment_templates < length assignment_templates)
    by (apply Nat.mod_upper_bound; discriminate).
  rewrite (nth_error_nth' assignment_templates EmptyString Hlt).
  fold (template_of i).
  pose proof (format_template (template_of i) (Str.title concept) (template_of_in i)) as E.
  intros g. unfold bind, ret, lift. rewrite E.
  eexists _, g. split; [reflexivity|]. eexists. split; [reflexivity|].
  split; [reflexivity|].
  exists (template_of i), (Str.title concept).
  split; [apply template_of_in|]. split; [right; eexists; reflexivity | exact E].
Qed.

Lemma concept_assignments_returns (concepts : list string) :
  returns (concept_assignments concepts)
    (fun r => Forall formatted r /\
              match concepts with
              | [] => r = []
              | [c0] => length r = 1 /\ uses_template 0 c0 r
              | c0 :: c1 :: _ =>
                  length r = 2 /\ uses_template 0 c0 r /\ uses_template 1 c1 r
              end).
Proof.
  destruct concepts as [|c0 [|c1 rest]].
  - apply returns_ret. split; [constructor | reflexivity].
  - unfold concept_assignments, enumerate.
    cbn [length Nat.leb firstn seq combine for_each].
    eapply returns_bind; [apply concept_assignment_returns|].
    intros ? (a0 & -> & E0 & F0). apply returns_ret. cbn [app].
    split; [repeat constructor; exact F0|]. split; [reflexivity|].
    exists a0. split; [reflexivity | exact E0].
  - unfold concept_assignments, enumerate.
    cbn [length Nat.leb firstn seq combine for_each].
    eapply returns_bind; [apply concept_assignment_returns|].
    intros ? (a0 & -> & E0 & F0). cbn [app].
    eapply returns_bind; [apply concept_assignment_returns|].
    intros ? (a1 & -> & E1 & F1). cbn [app].
    apply returns_ret. split; [repeat constructor; assumption|].
    split; [reflexivity|]. split.
    + exists a0. split; [reflexivity | exact E0].
    + exists a1. split; [reflexivity | exact E1].
Qed.

Lemma Forall_formatted_free (l : list string) :
  Forall formatted l -> Forall placeholder_free l.
Proof.
  intros H. eapply Forall_impl; [|exact H]. apply formatted_placeholder_free.
Qed.

Lemma backfill_returns (fuel : nat) (assignments : list string) :
  Forall formatted assignments -> 2 <= fuel + length assignments ->
  returns (backfill fuel assignments)
    (fun r => exists extra, r = assignments ++ extra /\
                Forall formatted r /\ 2 <= length r /\
                length extra = 2 - length assignments).
Proof.
  revert assignments. induction fuel as [|fuel IH]; intros assignments Hall Hfuel.
  - cbn [backfill]. destruct (length assignments <? 2) eqn:E.
    + apply Nat.ltb_lt in E. lia.
    + apply Nat.ltb_ge in E. apply returns_ret. exists [].
      rewrite app_nil_r. cbn [length]. repeat split; [assumption | assumption | lia].
  - cbn [backfill]. destruct (length assignments <? 2) eqn:E.
    + apply Nat.ltb_lt in E.
      rewrite (remaining_templates_all assignments (Forall_formatted_free _ Hall)).
      change (returns
        (template <- Random.choice assignment_templates ;;
         assignment <- lift (Format.format template generic_topic) ;;
         backfill fuel (assignments ++ [assignment])) 
        (fun r => exists extra, r = assignments ++ extra /\
                Forall formatted r /\ 2 <= length r /\
                length extra = 2 - length assignments)).
      eapply returns_bind; [apply choice_returns; discriminate|].
      intros t Hin. cbv beta in Hin.
      pose proof (format_template t generic_topic Hin) as Et. rewrite Et.
      set (filled := (before "{" t ++ generic_topic ++ after "}" t)%string) in *.
      eapply returns_bind; [apply (returns_lift filled (eq filled)); reflexivity|].
      intros a <-.
      eapply returns_weaken.
      * apply IH.
        -- apply Forall_app. split; [exact Hall|]. constructor; [|constructor].
           exists t, generic_topic. split; [exact Hin|]. split; [left; reflexivity | exact Et].
        -- rewrite length_app. cbn [length]. lia.
      * cbv beta. intros r (extra & -> & Hr & Hlen & Hextra).
        eexists (_ :: extra). rewrite <- app_assoc. cbn [app].
        split; [reflexivity|]. rewrite <- app_assoc in Hr, Hlen. cbn [app] in Hr, Hlen.
        repeat split; [exact Hr | exact Hlen |].
        rewrite length_app in Hextra. cbn [length] in *. lia.
    + apply Nat.ltb_ge in E. apply returns_ret. exists [].
      rewrite app_nil_r. cbn [length]. repeat split; [assumption | assumption | lia].
Qed.

Lemma generate_assignments_returns (fuel : nat) (text : string)
    (concepts : list string) :
  returns (generate_assignments (2 + fuel) text concepts)
    (fun r => length r = 2 /\ Forall formatted r /\
              match concepts with
              | [] => True
              | [c0] => uses_template 0 c0 r
              | c0 :: c1 :: _ => uses_template 0 c0 r /\ uses_template 1 c1 r
              end).
Proof.
  unfold generate_assignments.
  eapply returns_bind; [apply concept_assignments_returns|].
  intros made [Hmade Hshape]. cbv beta.
  eapply returns_bind; [apply backfill_returns; [exact Hmade | lia]|].
  intros r (extra & -> & Hr & Hlen & Hextra). apply returns_ret.
  assert (Htwo : length (made ++ extra) = 2).
  { rewrite length_app in *. destruct concepts as [|c0 [|c1 rest]].
    - subst made. cbn [length] in *. lia.
    - destruct Hshape as [Hone _]. lia.
    - destruct Hshape as [Hone _]. lia. }
  rewrite firstn_all2 by lia.
  split; [exact Htwo|]. split; [exact Hr|].
  assert (Hkeep : forall i c, uses_template i c made -> uses_template i c (made ++ extra)).
  { intros i c (a & Ha & E). exists a. split; [|exact E].
    rewrite nth_error_app1; [exact Ha|]. apply nth_error_Some. rewrite Ha. discriminate. }
  destruct concepts as [|c0 [|c1 rest]]; [exact I | |].
  - apply Hkeep, Hshape.
  - split; apply Hkeep, Hshape.
Qed.

(** C5: for every text, every list of concepts (the empty one included)
    and every random source, generate_assignments returns exactly two
    assignments once the loop has its two turns; no text the generator
    produces (a template filled with a title-cased string or with the
    generic topic) contains a template, so the filter keeps all five
    templates and the branch that stops the loop early is never taken. *)
Theorem C5_always_two_assignments (fuel : nat) (text : string)
    (concepts : list string) (g : rng) :
  (exists (assignments : list string) (g' : rng),
     generate_assignments (2 + fuel) text concepts g = Ok (assignments, g') /\
     length assignments = 2) /\
  (forall produced : list string,
     Forall formatted produced ->
     remaining_templates produced = assignment_templates /\
     length (remaining_templates produced) = 5).
Proof.
  split.
  - destruct (generate_assignments_returns fuel text concepts g)
      as (r & g' & E & Hlen & _).
    exists r, g'. split; assumption.
  - intros produced Hall.
    rewrite (remaining_templates_all produced (Forall_formatted_free _ Hall)).
    split; reflexivity.
Qed.

(** C6: with a non-empty list of concepts the first assignment is the
    template of index 0 mod 5 filled with the title-cased first concept;
    with two concepts or more the second assignment is the template of
    index 1 mod 5 filled with the title-cased second concept, there are
    exactly these two assignments, the two templates differ and neither
    assignment contains the placeholder. *)
Theorem C6_concepts_fill_templates_in_order (fuel : nat) (text : string)
    (c0 : string) (rest : list string) (g : rng) :
  exists (assignments : list string) (g' : rng),
    generate_assignments (2 + fuel) text (c0 :: rest) g = Ok (assignments, g') /\
    uses_template 0 c0 assignments /\
    match rest with
    | [] => True
    | c1 :: _ =>
        uses_template 1 c1 assignments /\
        length assignments = 2 /\
        template_of 0 <> template_of 1 /\
        Forall (fun a => Str.contains "{topic}" a = false) assignments
    end.
Proof.
  destruct (generate_assignments_returns fuel text (c0 :: rest) g)
    as (r & g' & E & Hlen & Hall & Hshape).
  exists r, g'. split; [exact E|].
  destruct rest as [|c1 rest].
  - split; [exact Hshape | exact I].
  - destruct Hshape as [H0 H1]. repeat split; try assumption.
    + discriminate.
    + eapply Forall_impl; [|exact Hall].
      intros a Ha. apply placeholder_free_no_placeholder, formatted_placeholder_free, Ha.
Qed.

(** C7 fails on the code.  With the single concept "gravity" and a random
    source whose draw selects position 0, the first assignment is
    template 0 filled with "Gravity", the filter still offers all five
    templates, and the backfill fills template 0 a second time; with no
    concept at all the same source yields the same text twice. *)
Theorem C7_backfill_reuses_a_template :
  let first := "Write a comprehensive essay analyzing Gravity. Discuss its key components, significance, and implications." in
  let second := "Write a comprehensive essay analyzing the main topic discussed. Discuss its key components, significance, and implications." in
  value (generate_assignments 2 "" ["gravity"] (fun _ => 0)) = Ok [first; second] /\
  Format.format (template_of 0) (Str.title "gravity") = Ok first /\
  Format.format (template_of 0) generic_topic = Ok second /\
  remaining_templates [first] = assignment_templates /\
  value (generate_assignments 2 "" [] (fun _ => 0)) = Ok [second; second].
Proof. vm_compute. repeat split; reflexivity. Qed.

(** ** Deduplication and the iteration order of the set *)

Lemma dedup_In (x : string) (l : list string) : In x (dedup l) <-> In x l.
Proof.
  induction l as [|y l IH]; [reflexivity|].
  cbn [dedup In]. rewrite filter_In, IH, negb_true_iff, String.eqb_neq.
  destruct (string_dec y x) as [->|Hne]; [tauto|].
  intuition congruence.
Qed.

Lemma dedup_NoDup (l : list string) : NoDup (dedup l).
Proof.
  induction l as [|y l IH]; [constructor|].
  cbn [dedup]. constructor.
  - rewrite filter_In, negb_true_iff, String.eqb_neq. tauto.
  - apply NoDup_filter, IH.
Qed.

Lemma firstn_incl {A : Type} (n : nat) (l : list A) : incl (firstn n l) l.
Proof.
  intros x Hx. rewrite <- (firstn_skipn n l). apply in_or_app. left. exact Hx.
Qed.

Lemma firstn_NoDup {A : Type} (n : nat) (l : list A) : NoDup l -> NoDup (firstn n l).
Proof.
  intros H. rewrite <- (firstn_skipn n l) in H. eapply NoDup_app_remove_r, H.
Qed.

Section Extraction.

Variable order : list string -> list string.
Hypothesis order_permutes : iteration_order order.

Lemma list_of_set_permutation (concepts : list string) :
  Permutation (list_of_set order concepts) (dedup concepts).
Proof. apply order_permutes. Qed.

Lemma extract_length (text : string) :
  length (extract_key_concepts order text)
  = Nat.min 8 (length (dedup (candidate_concepts text))).
Proof.
  unfold extract_key_concepts. rewrite length_firstn.
  rewrite (Permutation_length (list_of_set_permutation _)). reflexivity.
Qed.

Lemma extract_NoDup (text : string) : NoDup (extract_key_concepts order text).
Proof.
  apply firstn_NoDup.
  eapply Permutation_NoDup; [apply Permutation_sym, list_of_set_permutation|].
  apply dedup_NoDup.
Qed.

Lemma extract_incl (text : string) :
  incl (extract_key_concepts order text) (candidate_concepts text).
Proof.
  intros x Hx. apply firstn_incl in Hx.
  apply (Permutation_in _ (list_of_set_permutation _)) in Hx.
  apply dedup_In, Hx.
Qed.

Lemma extract_all (text : string) :
  length (dedup (candidate_concepts text)) <= 8 ->
  Permutation (extract_key_concepts order text) (dedup (candidate_concepts text)).
Proof.
  intros Hle. unfold extract_key_concepts.
  rewrite firstn_all2; [apply list_of_set_permutation|].
  rewrite (Permutation_length (list_of_set_permutation _)). exact Hle.
Qed.

End Extraction.

(** ** Tokens *)

Lemma split_spaceless (s : string) : Forall spaceless (Str.split s).
Proof.
  induction s as [|c s IH]; [constructor|].
  cbn [Str.split]. destruct (Char.isspace c) eqn:Hc; [exact IH|].
  destruct (Str.starts_blank s) eqn:Hs.
  - constructor; [|exact IH]. split; [discriminate|]. cbn. rewrite Hc. reflexivity.
  - pose proof (split_nonempty s Hs) as Hne.
    destruct (Str.split s) as [|w ws]; [congruence|].
    cbn [Str.cons_head]. inversion IH as [|? ? [_ Hw] Hws]; subst.
    constructor; [|exact Hws]. split; [discriminate|].
    cbn [Str.existsb]. rewrite Hc, Hw. reflexivity.
Qed.

Lemma split_blank (s : string) : blank s -> Str.split s = [].
Proof.
  unfold blank. induction s as [|c s IH]; [reflexivity|].
  cbn [Str.forallb Str.split]. intros H. apply andb_prop in H.
  destruct H as [-> Hs]. apply IH, Hs.
Qed.

Lemma re_sub_blank (s : string) : blank s -> blank (re_sub_punctuation s).
Proof.
  unfold blank, re_sub_punctuation. induction s as [|c s IH]; [reflexivity|].
  cbn [Str.forallb Str.map]. intros H. apply andb_prop in H.
  destruct H as [Hc Hs]. rewrite Hc, orb_true_r, Hc. exact (IH Hs).
Qed.

Lemma tokens_blank (text : string) : blank text -> tokens text = [].
Proof. intros H. apply split_blank, re_sub_blank, H. Qed.

Lemma lower_isspace (c : ascii) : Char.isspace (Char.lower c) = Char.isspace c.
Proof. each_char c. Qed.

Lemma lower_isalpha (c : ascii) : Char.isalpha (Char.lower c) = Char.isalpha c.
Proof. each_char c. Qed.

Lemma lower_length (w : string) : String.length (Str.lower w) = String.length w.
Proof.
  induction w as [|c w IH]; [reflexivity|].
  cbn [Str.lower Str.map String.length]. f_equal. exact IH.
Qed.

Lemma lower_spaceless (w : string) : spaceless w -> spaceless (Str.lower w).
Proof.
  intros [Hne Hw]. split.
  - destruct w; [congruence | discriminate].
  - clear Hne. induction w as [|c w IH]; [reflexivity|].
    cbn [Str.existsb] in Hw. apply orb_false_iff in Hw. destruct Hw as [Hc Hw].
    cbn [Str.lower Str.map Str.existsb]. rewrite lower_isspace, Hc. exact (IH Hw).
Qed.

Lemma lower_is_alpha (w : string) : Str.isalpha (Str.lower w) = Str.isalpha w.
Proof.
  unfold Str.isalpha. f_equal; [destruct w; reflexivity|].
  induction w as [|c w IH]; [reflexivity|].
  cbn [Str.lower Str.map Str.forallb]. rewrite lower_isalpha. f_equal. exact IH.
Qed.

Lemma lstrip_id (w : string) : Str.existsb Char.isspace w = false -> Str.lstrip w = w.
Proof.
  destruct w as [|c w]; [reflexivity|]. cbn [Str.existsb Str.lstrip].
  intros H. apply orb_false_iff in H. destruct H as [-> _]. reflexivity.
Qed.

Lemma rstrip_id (w : string) : Str.existsb Char.isspace w = false -> Str.rstrip w = w.
Proof.
  induction w as [|c w IH]; [reflexivity|]. cbn [Str.existsb Str.rstrip].
  intros H. apply orb_false_iff in H. destruct H as [Hc Hw].
  rewrite (IH Hw), Hc. destruct w; reflexivity.
Qed.

Lemma clean_spaceless (w : string) : spaceless w -> clean w = Str.lower w.
Proof.
  intros Hw. apply lower_spaceless in Hw. destruct Hw as [_ Hw].
  unfold clean, Str.strip. rewrite (lstrip_id _ Hw). apply rstrip_id, Hw.
Qed.

Lemma tokens_spaceless (text : string) : Forall spaceless (tokens text).
Proof. apply split_spaceless. Qed.

Lemma clean_tokens (text : string) :
  List.map clean (tokens text) = List.map Str.lower (tokens text).
Proof.
  apply map_ext_in. intros w Hw. apply clean_spaceless.
  exact (proj1 (Forall_forall _ _) (tokens_spaceless text) w Hw).
Qed.

Lemma capitalized_pass_In (e : string) (words : list string) :
  In e (capitalized_pass words) <->
  exists token, In token words /\ e = Str.lower token /\ capitalized_token token.
Proof.
  unfold capitalized_pass, capitalized_token, is_capitalized.
  rewrite in_map_iff. split.
  - intros (t & <- & Ht). apply filter_In in Ht. destruct Ht as [Hin Hcap].
    apply andb_prop in Hcap. destruct Hcap as [Heq Hlen].
    exists t. split; [exact Hin|]. split; [reflexivity|].
    split; [apply String.eqb_eq, Heq | apply Nat.ltb_lt, Hlen].
  - intros (t & Hin & -> & Heq & Hlen). exists t. split; [reflexivity|].
    apply filter_In. split; [exact Hin|]. apply andb_true_intro.
    split; [apply String.eqb_eq, Heq | apply Nat.ltb_lt, Hlen].
Qed.

(** ** The word-count dict *)

Lemma dict_get_set_same (k : string) (v default : nat) (d : dict) :
  dict_get k default (dict_set k v d) = v.
Proof.
  induction d as [|[k' v'] d IH]; cbn [dict_set dict_get].
  - rewrite String.eqb_refl. reflexivity.
  - destruct (String.eqb k' k) eqn:E; cbn [dict_get]; rewrite E; [reflexivity | exact IH].
Qed.

Lemma dict_get_set_other (k k0 : string) (v default : nat) (d : dict) :
  k0 <> k -> dict_get k0 default (dict_set k v d) = dict_get k0 default d.
Proof.
  intros Hne. induction d as [|[k' v'] d IH]; cbn [dict_set dict_get].
  - destruct (String.eqb k k0) eqn:E; [|reflexivity].
    apply String.eqb_eq in E. congruence.
  - destruct (String.eqb k' k) eqn:E; cbn [dict_get].
    + apply String.eqb_eq in E. subst k'.
      destruct (String.eqb k k0) eqn:E0; [|reflexivity].
      apply String.eqb_eq in E0. congruence.
    + destruct (String.eqb k' k0); [reflexivity | exact IH].
Qed.

Lemma dict_set_keys (k k0 : string) (v : nat) (d : dict) :
  In k0 (List.map fst (dict_set k v d)) <-> k0 = k \/ In k0 (List.map fst d).
Proof.
  induction d as [|[k' v'] d IH]; cbn [dict_set List.map fst In].
  - intuition congruence.
  - destruct (String.eqb k' k) eqn:E; cbn [List.map fst In].
    + apply String.eqb_eq in E. subst k'. intuition congruence.
    + rewrite IH. tauto.
Qed.

Lemma dict_set_NoDup (k : string) (v : nat) (d : dict) :
  NoDup (List.map fst d) -> NoDup (List.map fst (dict_set k v d)).
Proof.
  induction d as [|[k' v'] d IH]; cbn [dict_set List.map fst]; intros Hnd.
  - constructor; [intros [] | constructor].
  - inversion Hnd as [|? ? Hnotin Hnd']; subst.
    destruct (String.eqb k' k) eqn:E; cbn [List.map fst].
    + constructor; assumption.
    + constructor; [|apply IH, Hnd'].
      rewrite dict_set_keys. intros [->|Hin]; [|contradiction].
      rewrite String.eqb_refl in E. discriminate E.
Qed.

Lemma dict_get_item (k : string) (v default : nat) (d : dict) :
  NoDup (List.map fst d) -> In (k, v) d -> dict_get k default d = v.
Proof.
  induction d as [|[k' v'] d IH]; [intros _ []|].
  cbn [List.map fst dict_get In]. intros Hnd Hin.
  inversion Hnd as [|? ? Hnotin Hnd']; subst.
  destruct Hin as [E|Hin].
  - injection E as -> ->. rewrite String.eqb_refl. reflexivity.
  - destruct (String.eqb k' k) eqn:E; [|apply IH; assumption].
    apply String.eqb_eq in E. subst k'. exfalso. apply Hnotin.
    apply in_map_iff. exists (k, v). split; [reflexivity | exact Hin].
Qed.

Lemma counts_step (d : dict) (ws : list string) (word : string) :
  counts d ws ->
  counts (count_word d word)
         (ws ++ List.filter is_meaningful [clean word]).
Proof.
  intros (Hnd & Hget & Hkeys). unfold count_word. cbn [List.filter].
  destruct (is_meaningful (clean word)); [|rewrite app_nil_r; repeat split; auto; apply Hkeys].
  split; [apply dict_set_NoDup, Hnd|]. split.
  - intros k. rewrite count_occ_app. destruct (string_dec k (clean word)) as [->|Hne].
    + rewrite dict_get_set_same, Hget, count_occ_cons_eq by reflexivity.
      cbn [count_occ]. reflexivity.
    + rewrite dict_get_set_other by exact Hne.
      rewrite count_occ_cons_neq by congruence. cbn [count_occ]. rewrite Hget. lia.
  - intros k. rewrite dict_set_keys, in_app_iff, Hkeys. cbn [In]. intuition congruence.
Qed.

Lemma counts_fold (words : list string) (d : dict) (ws : list string) :
  counts d ws ->
  counts (fold_left count_word words d)
         (ws ++ List.filter is_meaningful (List.map clean words)).
Proof.
  revert d ws. induction words as [|word words IH]; intros d ws H.
  - cbn. rewrite app_nil_r. exact H.
  - cbn [fold_left List.map]. apply counts_step with (word := word) in H.
    apply IH in H. rewrite <- app_assoc in H.
    rewrite <- filter_app in H. exact H.
Qed.

Lemma count_words_counts (words : list string) :
  counts (count_words words) (List.filter is_meaningful (List.map clean words)).
Proof.
  apply (counts_fold words [] []). split; [constructor|].
  split; [reflexivity | reflexivity].
Qed.

(** ** The descending stable sort *)

Lemma insert_desc_permutation (x : string * nat) (l : dict) :
  Permutation (insert_desc x l) (x :: l).
Proof.
  induction l as [|y l IH]; [reflexivity|].
  cbn [insert_desc]. destruct (snd y <=? snd x); [reflexivity|].
  etransitivity; [apply perm_skip, IH | apply perm_swap].
Qed.

Lemma sorted_desc_permutation (items : dict) : Permutation (sorted_desc items) items.
Proof.
  induction items as [|x items IH]; [reflexivity|].
  cbn [sorted_desc fold_right]. fold (sorted_desc items).
  etransitivity; [apply insert_desc_permutation | apply perm_skip, IH].
Qed.

Lemma insert_desc_descending (x : string * nat) (l : dict) :
  descending l -> descending (insert_desc x l).
Proof.
  unfold descending. induction l as [|y l IH]; intros Hs.
  - repeat constructor.
  - inversion Hs as [|? ? Hl Hy]; subst. cbn [insert_desc].
    destruct (snd y <=? snd x) eqn:E.
    + apply Nat.leb_le in E. constructor; [exact Hs|].
      constructor; [exact E|].
      eapply Forall_impl; [|exact Hy]. cbv beta. intros z Hz. lia.
    + apply Nat.leb_gt in E. constructor; [apply IH, Hl|].
      apply Forall_forall. intros z Hz.
      apply (Permutation_in _ (insert_desc_permutation x l)) in Hz.
      destruct Hz as [<-|Hz]; [lia|].
      exact (proj1 (Forall_forall _ _) Hy z Hz).
Qed.

Lemma sorted_desc_descending (items : dict) : descending (sorted_desc items).
Proof.
  induction items as [|x items IH]; [constructor|].
  cbn [sorted_desc fold_right]. apply insert_desc_descending, IH.
Qed.

Lemma filter_none {A : Type} (f : A -> bool) (l : list A) :
  (forall x, In x l -> f x = false) -> List.filter f l = [].
Proof.
  induction l as [|x l IH]; intros H; [reflexivity|].
  cbn [List.filter]. rewrite (H x (or_introl eq_refl)).
  apply IH. intros y Hy. apply H. right. exact Hy.
Qed.

(** An item among the first [n] of a descending list has fewer than [n]
    items of a strictly greater count. *)
Lemma descending_rank (n : nat) (x : string * nat) (l : dict) :
  descending l -> In x (firstn n l) ->
  length (List.filter (fun y => snd x <? snd y) l) < n.
Proof.
  unfold descending. revert n. induction l as [|y l IH]; intros n Hs Hin.
  - destruct n; destruct Hin.
  - destruct n as [|n]; [destruct Hin|].
    inversion Hs as [|? ? Hl Hy]; subst. cbn [firstn In] in Hin.
    destruct Hin as [->|Hin].
    + rewrite filter_none; [cbn; lia|].
      intros z [<-|Hz]; apply Nat.ltb_ge; [lia|].
      exact (proj1 (Forall_forall _ _) Hy z Hz).
    + specialize (IH n Hl Hin). cbn [List.filter].
      destruct (snd x <? snd y); cbn [length]; lia.
Qed.

Lemma filter_length_permutation {A : Type} (f : A -> bool) (l l' : list A) :
  Permutation l l' -> length (List.filter f l) = length (List.filter f l').
Proof.
  induction 1 as [|a l l' _ IH|a b l|l l' l'' _ IH1 _ IH2]; cbn [List.filter].
  - reflexivity.
  - destruct (f a); cbn [length]; congruence.
  - destruct (f a), (f b); reflexivity.
  - congruence.
Qed.

(** ** The frequency pass *)

Lemma count_occ_filter (f : string -> bool) (l : list string) (x : string) :
  f x = true ->
  count_occ string_dec (List.filter f l) x = count_occ string_dec l x.
Proof.
  intros Hx. induction l as [|y l IH]; [reflexivity|].
  cbn [List.filter]. destruct (string_dec y x) as [->|Hne].
  - rewrite Hx, !count_occ_cons_eq by reflexivity. congruence.
  - rewrite (count_occ_cons_neq _ l Hne).
    destruct (f y); [rewrite count_occ_cons_neq by exact Hne|]; exact IH.
Qed.

Lemma meaningful_occurrences (words : list string) (w : string) :
  is_meaningful w = true ->
  count_occ string_dec (List.filter is_meaningful (List.map Str.lower words)) w
  = occurrences w words.
Proof. intros Hw. apply count_occ_filter, Hw. Qed.

Lemma keys_permutation (d : dict) (ws : list string) :
  counts d ws -> Permutation (List.map fst d) (dedup ws).
Proof.
  intros (Hnd & _ & Hkeys). apply NoDup_Permutation; [exact Hnd | apply dedup_NoDup|].
  intros k. rewrite Hkeys, dedup_In. reflexivity.
Qed.

Lemma outranking_length (d : dict) (words : list string) (e : string) (v : nat) :
  counts d (List.filter is_meaningful (List.map Str.lower words)) ->
  occurrences e words = v ->
  length (outranking e words) = length (List.filter (fun y => v <? snd y) d).
Proof.
  intros Hc Hv. pose proof Hc as (Hnd & Hget & Hkeys).
  set (W := List.filter is_meaningful (List.map Str.lower words)) in *.
  transitivity (length (List.filter (fun k => v <? count_occ string_dec W k) (List.map fst d))).
  - unfold outranking, meaningful_words. fold W. rewrite Hv.
    rewrite (filter_length_permutation
               (fun k => v <? count_occ string_dec W k) _ _ (keys_permutation d W Hc)).
    f_equal. apply filter_ext_in. intros k Hk. apply (proj1 (dedup_In _ _)) in Hk.
    unfold W in Hk. apply filter_In in Hk. destruct Hk as [_ Hk].
    unfold W. rewrite (meaningful_occurrences words k Hk). reflexivity.
  - rewrite filter_map_swap, length_map. f_equal. apply filter_ext_in.
    intros [k n] Hin. cbn [fst snd].
    rewrite <- Hget, (dict_get_item k n 0 d Hnd Hin). reflexivity.
Qed.

Lemma frequency_pass_In (text e : string) :
  In e (frequency_pass (tokens text)) ->
  exists token, In token (tokens text) /\ e = Str.lower token /\
                frequent_token token (tokens text).
Proof.
  set (words := tokens text). unfold frequency_pass, frequent_words.
  intros Hin. apply in_map_iff in Hin. destruct Hin as ([k v] & <- & Hin).
  cbn [fst]. apply filter_In in Hin. destruct Hin as [Htop Hv].
  cbn [snd] in Hv. apply Nat.ltb_lt in Hv.
  pose proof (count_words_counts words) as Hc.
  unfold words in Hc at 2. rewrite clean_tokens in Hc. fold words in Hc.
  pose proof Hc as (Hnd & Hget & Hkeys).
  assert (Hitem : In (k, v) (count_words words)).
  { apply (Permutation_in _ (sorted_desc_permutation _)), (firstn_incl 10), Htop. }
  assert (Hkey : In k (List.map fst (count_words words))).
  { apply in_map_iff. exists (k, v). split; [reflexivity | exact Hitem]. }
  apply Hkeys, filter_In in Hkey. destruct Hkey as [Hlow Hmean].
  apply in_map_iff in Hlow. destruct Hlow as (token & <- & Htoken).
  assert (Hocc : occurrences (Str.lower token) words = v).
  { rewrite <- (meaningful_occurrences words _ Hmean), <- Hget.
    apply dict_get_item; assumption. }
  exists token. split; [exact Htoken|]. split; [reflexivity|].
  unfold is_meaningful in Hmean. apply andb_prop in Hmean.
  destruct Hmean as [Hlen Halpha]. apply Nat.ltb_lt in Hlen.
  rewrite lower_length in Hlen. rewrite lower_is_alpha in Halpha.
  repeat split; [exact Halpha | exact Hlen | rewrite Hocc; exact Hv |].
  rewrite (outranking_length _ words _ v Hc Hocc).
  rewrite <- (filter_length_permutation _ _ _ (sorted_desc_permutation _)).
  apply (descending_rank 10 (Str.lower token, v));
    [apply sorted_desc_descending | exact Htop].
Qed.

(** ** The concept extractor *)

Lemma candidate_concepts_passes (text : string) :
  candidate_concepts text
  = capitalized_pass (tokens text) ++ frequency_pass (tokens text).
Proof. reflexivity. Qed.

Lemma candidate_concepts_In (text e : string) :
  In e (candidate_concepts text) ->
  spaceless e /\
  exists token, In token (tokens text) /\ e = Str.lower token /\
    (capitalized_token token \/ frequent_token token (tokens text)).
Proof.
  rewrite candidate_concepts_passes, in_app_iff.
  intros [Hcap|Hfreq].
  - apply capitalized_pass_In in Hcap. destruct Hcap as (token & Hin & -> & Hcap).
    split; [|exists token; auto].
    apply lower_spaceless.
    exact (proj1 (Forall_forall _ _) (tokens_spaceless text) token Hin).
  - apply frequency_pass_In in Hfreq. destruct Hfreq as (token & Hin & -> & Hfreq).
    split; [|exists token; auto].
    apply lower_spaceless.
    exact (proj1 (Forall_forall _ _) (tokens_spaceless text) token Hin).
Qed.

(** [capitalize] is the test of the program; Python's [title] differs
    from it on a token with a letter after a digit or an underscore. *)
Remark capitalize_differs_from_title :
  capitalized_token "Ab1c" /\ ~ title_cased_token "Ab1c".
Proof.
  split; [split; [reflexivity | cbn; lia]|].
  intros [Htitle _]. vm_compute in Htitle. discriminate Htitle.
Qed.

(** C3, as stated, fails: the text ["Ab1c"] yields the concept ["ab1c"];
    its only token ["Ab1c"] is not its own title-cased form (that form is
    ["Ab1C"], the letter after the digit being put in upper case) and is
    not alphabetic, so it is neither kind of token the claim allows. *)
Lemma C3_capitalize_is_not_title_case :
  extract_key_concepts (fun l => l) "Ab1c" = ["ab1c"] /\
  ~ (exists token, In token (tokens "Ab1c") /\ "ab1c" = Str.lower token /\
       (title_cased_token token \/ frequent_token token (tokens "Ab1c"))).
Proof.
  split; [reflexivity|].
  intros (token & Hin & _ & Hkind).
  assert (E : token = "Ab1c") by (destruct Hin as [<-|[]]; reflexivity).
  subst token. destruct Hkind as [[Htitle _]|[Halpha _]].
  - vm_compute in Htitle. discriminate Htitle.
  - vm_compute in Halpha. discriminate Halpha.
Qed.

(** C3, amended: for every text and every iteration order of the set,
    extract returns at most 8 entries without repetition; every entry is
    non-empty, holds no whitespace and is the lowercased form of a token
    that either is capitalized in the sense of [capitalize] (the token is
    its own form with the first character in upper case and all others in
    lower case) and longer than 3, or is alphabetic, longer than 4, occurs
    more than once and is within the top 10 by frequency (fewer than 10
    words occur strictly more often); an empty or whitespace-only text
    yields the empty list. *)
Theorem C3_extract_concepts (order : list string -> list string) (text : string) :
  iteration_order order ->
  length (extract_key_concepts order text) <= 8 /\
  NoDup (extract_key_concepts order text) /\
  Forall (fun e =>
            spaceless e /\
            exists token, In token (tokens text) /\ e = Str.lower token /\
              (capitalized_token token \/ frequent_token token (tokens text)))
         (extract_key_concepts order text) /\
  (blank text -> extract_key_concepts order text = []).
Proof.
  intros Horder. split; [|split; [|split]].
  - rewrite (extract_length order Horder). apply Nat.le_min_l.
  - apply extract_NoDup, Horder.
  - apply Forall_forall. intros e He.
    apply candidate_concepts_In, (extract_incl order Horder), He.
  - intros Hblank. unfold extract_key_concepts, list_of_set.
    assert (E : candidate_concepts text = []).
    { rewrite candidate_concepts_passes, (tokens_blank text Hblank). reflexivity. }
    rewrite E. cbn [dedup].
    rewrite (Permutation_nil (Permutation_sym (Horder []))). reflexivity.
Qed.

Lemma C3_extract_concepts_witness :
  let text := "Photosynthesis is a process. Photosynthesis occurs in plants. Plants use Photosynthesis to create energy." in
  let concepts := extract_key_concepts (fun l => l) text in
  concepts = ["photosynthesis"; "plants"] /\
  (length concepts <= 8 /\
   NoDup concepts /\
   Forall (fun e =>
             spaceless e /\
             exists token, In token (tokens text) /\ e = Str.lower token /\
               (capitalized_token token \/ frequent_token token (tokens text)))
          concepts /\
   (blank text -> concepts = [])).
Proof.
  split; [reflexivity|].
  apply (C3_extract_concepts (fun l => l)). intros l. apply Permutation_refl.
Defined.

(** C4, as stated, fails: a set that iterates over ["alpha"] and ["bravo"]
    in the order opposite to their insertion makes extract return them in
    that opposite order. *)
Lemma C4_set_order_is_not_insertion_order :
  iteration_order (@rev string) /\
  firstn 8 (dedup (candidate_concepts "Alpha Bravo")) = ["alpha"; "bravo"] /\
  extract_key_concepts (@rev string) "Alpha Bravo" = ["bravo"; "alpha"].
Proof.
  split; [|split; reflexivity].
  intros l. apply Permutation_sym, Permutation_rev.
Qed.

(** C4, amended: the list that is deduplicated holds the concepts of the
    capitalized-token pass first and those of the frequency pass after
    them; the returned sequence is the first 8 entries of some arrangement
    (the iteration order of the set, not necessarily the insertion order)
    of the distinct elements of that list, so it has no repetition, holds
    only elements of the list and has min(8, n) entries for n distinct
    elements. *)
Theorem C4_extract_arranges_the_candidates (order : list string -> list string)
    (text : string) :
  iteration_order order ->
  let candidates := capitalized_pass (tokens text) ++ frequency_pass (tokens text) in
  let concepts := extract_key_concepts order text in
  NoDup concepts /\
  incl concepts candidates /\
  length concepts = Nat.min 8 (length (dedup candidates)) /\
  exists arranged,
    Permutation arranged (dedup candidates) /\ concepts = firstn 8 arranged.
Proof.
  intros Horder. cbv zeta. rewrite <- candidate_concepts_passes.
  split; [apply extract_NoDup, Horder|].
  split; [apply extract_incl, Horder|].
  split; [apply extract_length, Horder|].
  exists (list_of_set order (candidate_concepts text)).
  split; [apply list_of_set_permutation, Horder | reflexivity].
Qed.

Lemma C4_extract_arranges_the_candidates_witness :
  let text := "Alpha Bravo" in
  let candidates := capitalized_pass (tokens text) ++ frequency_pass (tokens text) in
  let concepts := extract_key_concepts (@rev string) text in
  NoDup concepts /\
  incl concepts candidates /\
  length concepts = Nat.min 8 (length (dedup candidates)) /\
  exists arranged,
    Permutation arranged (dedup candidates) /\ concepts = firstn 8 arranged.
Proof.
  apply (C4_extract_arranges_the_candidates (@rev string) "Alpha Bravo").
  intros l. apply Permutation_sym, Permutation_rev.
Defined.

(** C10, as stated, fails: with nine distinct candidate concepts the eight
    that are kept depend on the iteration order of the set; ["alpha"] is
    returned under one order and dropped under another. *)
Lemma C10_membership_depends_on_set_order :
  iteration_order (fun l : list string => l) /\
  iteration_order (@rev string) /\
  In "alpha" (extract_key_concepts (fun l => l)
                "Alpha Bravo Charlie Delta Foxtrot Golf Hotel India Juliet") /\
  ~ In "alpha" (extract_key_concepts (@rev string)
                  "Alpha Bravo Charlie Delta Foxtrot Golf Hotel India Juliet").
Proof.
  split; [intros l; apply Permutation_refl|].
  split; [intros l; apply Permutation_sym, Permutation_rev|].
  split; [vm_compute; left; reflexivity|].
  vm_compute. intros H.
  repeat (destruct H as [H|H]; [discriminate H|]). exact H.
Qed.

(** C10, amended: for any two iteration orders of the set, two calls of
    extract on identical text return sequences of the same length whose
    entries are candidate concepts of the text, and the two sequences have
    identical membership whenever the text has at most 8 distinct
    candidate concepts. *)
Theorem C10_membership_up_to_eight (order1 order2 : list string -> list string)
    (text : string) :
  iteration_order order1 -> iteration_order order2 ->
  length (extract_key_concepts order1 text)
  = length (extract_key_concepts order2 text) /\
  incl (extract_key_concepts order1 text) (candidate_concepts text) /\
  incl (extract_key_concepts order2 text) (candidate_concepts text) /\
  (length (dedup (candidate_concepts text)) <= 8 ->
   forall x, In x (extract_key_concepts order1 text)
             <-> In x (extract_key_concepts order2 text)).
Proof.
  intros H1 H2. split; [|split; [|split]].
  - rewrite (extract_length order1 H1), (extract_length order2 H2). reflexivity.
  - apply extract_incl, H1.
  - apply extract_incl, H2.
  - intros Hle x.
    pose proof (extract_all order1 H1 text Hle) as P1.
    pose proof (extract_all order2 H2 text Hle) as P2.
    split; intros Hx.
    + eapply Permutation_in; [apply Permutation_sym, P2|].
      eapply Permutation_in; [exact P1 | exact Hx].
    + eapply Permutation_in; [apply Permutation_sym, P1|].
      eapply Permutation_in; [exact P2 | exact Hx].
Qed.

Lemma C10_membership_up_to_eight_witness :
  length (extract_key_concepts (fun l => l) "Alpha Bravo")
  = length (extract_key_concepts (@rev string) "Alpha Bravo") /\
  incl (extract_key_concepts (fun l => l) "Alpha Bravo") (candidate_concepts "Alpha Bravo") /\
  incl (extract_key_concepts (@rev string) "Alpha Bravo") (candidate_concepts "Alpha Bravo") /\
  (length (dedup (candidate_concepts "Alpha Bravo")) <= 8 ->
   forall x, In x (extract_key_concepts (fun l => l) "Alpha Bravo")
             <-> In x (extract_key_concepts (@rev string) "Alpha Bravo")).
Proof.
  apply (C10_membership_up_to_eight (fun l => l) (@rev string) "Alpha Bravo").
  - intros l. apply Permutation_refl.
  - intros l. apply Permutation_sym, Permutation_rev.
Defined.

(** ** The topic input *)

(** C8, as stated, fails: the synthesized text for the topic "Gravity"
    holds "Gravity" five times, not six. *)
Lemma C8_gravity_not_six_times :
  Str.count "Gravity" (topic_input "Gravity") <> 6.
Proof. vm_compute. discriminate. Qed.

(** C8, amended: for the topic "Gravity" the synthesized text holds
    "Gravity" five times, once in each of its five sentences; the word
    "gravity" occurs 5 times among the tokens, is a concept of the
    frequency pass, and is returned by extract under every iteration order
    of the set. *)
Theorem C8_gravity_topic (order : list string -> list string) :
  iteration_order order ->
  Str.count "Gravity" (topic_input "Gravity") = 5 /\
  sentence_count (topic_input "Gravity") = 5 /\
  Forall (fun s => Str.count "Gravity" s = 1)
         (List.filter (Str.existsb nonspace)
                      (Str.split_on "." (topic_input "Gravity"))) /\
  occurrences "gravity" (tokens (topic_input "Gravity")) = 5 /\
  In "gravity" (frequency_pass (tokens (topic_input "Gravity"))) /\
  In "gravity" (extract_key_concepts order (topic_input "Gravity")).
Proof.
  intros Horder.
  split; [vm_compute; reflexivity|]. split; [vm_compute; reflexivity|].
  split; [vm_compute; repeat constructor|].
  split; [vm_compute; reflexivity|]. split; [vm_compute; left; reflexivity|].
  assert (Hle : length (dedup (candidate_concepts (topic_input "Gravity"))) <= 8).
  { vm_compute. lia. }
  eapply Permutation_in;
    [apply Permutation_sym, (extract_all order Horder _ Hle)|].
  vm_compute. left. reflexivity.
Qed.

Lemma C8_gravity_topic_witness :
  Str.count "Gravity" (topic_input "Gravity") = 5 /\
  sentence_count (topic_input "Gravity") = 5 /\
  Forall (fun s => Str.count "Gravity" s = 1)
         (List.filter (Str.existsb nonspace)
                      (Str.split_on "." (topic_input "Gravity"))) /\
  occurrences "gravity" (tokens (topic_input "Gravity")) = 5 /\
  In "gravity" (frequency_pass (tokens (topic_input "Gravity"))) /\
  In "gravity" (extract_key_concepts (fun l => l) (topic_input "Gravity")).
Proof.
  apply (C8_gravity_topic (fun l => l)). intros l. apply Permutation_refl.
Defined.

(** * Further properties of the code *)

(** ** The capitalized-token test *)

Lemma upper_fixed (c : ascii) : Char.upper c = c <-> Char.islower c = false.
Proof. split; each_char c. Qed.

Lemma lower_fixed (c : ascii) : Char.lower c = c <-> Char.isupper c = false.
Proof. split; each_char c. Qed.

Lemma lower_string_fixed (s : string) :
  Str.lower s = s <-> Str.existsb Char.isupper s = false.
Proof.
  induction s as [|c s IH]; [split; reflexivity|].
  cbn [Str.lower Str.map Str.existsb]. fold (Str.lower s).
  rewrite orb_false_iff, <- IH, <- lower_fixed. split.
  - intros H. injection H as Hc Hs. split; assumption.
  - intros [Hc Hs]. rewrite Hc, Hs. reflexivity.
Qed.

(** X1: for a token of 7-bit characters, the capitalized pass takes it
    exactly when it is longer than 3 characters, does not start with a
    lower-case letter and has no upper-case letter after the first
    character; a token made of digits only, such as a year, passes the
    test. *)
Theorem is_capitalized_characterization (c : ascii) (rest : string) :
  is_ascii (String c rest) = true ->
  (is_capitalized (String c rest) = true <->
   3 <= String.length rest /\
   Char.islower c = false /\
   Str.existsb Char.isupper rest = false).
Proof.
  intros _.
  unfold is_capitalized. rewrite andb_true_iff, String.eqb_eq, Nat.ltb_lt.
  cbn [Str.capitalize String.length].
  rewrite <- lower_string_fixed, <- upper_fixed. split.
  - intros [H Hlen]. injection H as Hc Hrest. repeat split; [lia | exact Hc | exact Hrest].
  - intros (Hlen & Hc & Hrest). rewrite Hc, Hrest. split; [reflexivity | lia].
Qed.

Lemma is_capitalized_characterization_witness :
  is_capitalized "2024" = true <->
  3 <= String.length "024" /\
  Char.islower "2" = false /\
  Str.existsb Char.isupper "024" = false.
Proof.
  apply (is_capitalized_characterization "2" "024"). reflexivity.
Defined.

(** ** The shape of the concepts *)

Lemma split_chars (q : ascii -> bool) (s : string) :
  Str.forallb (fun c => q c || Char.isspace c) s = true ->
  Forall (fun w => Str.forallb q w = true) (Str.split s).
Proof.
  induction s as [|c s IH]; [constructor|].
  cbn [Str.forallb Str.split]. intros H. apply andb_prop in H.
  destruct H as [Hc Hs]. specialize (IH Hs).
  destruct (Char.isspace c) eqn:Ec; [exact IH|].
  rewrite orb_false_r in Hc.
  destruct (Str.starts_blank s).
  - constructor; [|exact IH]. cbn [Str.forallb]. rewrite Hc. reflexivity.
  - destruct (Str.split s) as [|w ws]; cbn [Str.cons_head].
    + constructor; [|constructor]. cbn [Str.forallb]. rewrite Hc. reflexivity.
    + inversion IH as [|? ? Hw Hws]; subst. constructor; [|exact Hws].
      cbn [Str.forallb]. rewrite Hc, Hw. reflexivity.
Qed.

Lemma re_sub_chars (text : string) :
  Str.forallb (fun c => Char.isword c || Char.isspace c)
              (re_sub_punctuation text) = true.
Proof.
  unfold re_sub_punctuation. induction text as [|c text IH]; [reflexivity|].
  cbn [Str.map Str.forallb]. rewrite IH, andb_true_r.
  destruct (Char.isword c || Char.isspace c) eqn:E; [exact E | reflexivity].
Qed.

Lemma tokens_word_chars (text : string) :
  Forall (fun w => Str.forallb Char.isword w = true) (tokens text).
Proof. apply split_chars, re_sub_chars. Qed.

Lemma lower_word_char_lower (c : ascii) :
  Char.isword c = true -> lower_word_char (Char.lower c) = true.
Proof. each_char c. Qed.

Lemma lower_word_chars (w : string) :
  Str.forallb Char.isword w = true ->
  Str.forallb lower_word_char (Str.lower w) = true.
Proof.
  induction w as [|c w IH]; [reflexivity|].
  cbn [Str.forallb Str.lower Str.map]. intros H. apply andb_prop in H.
  destruct H as [Hc Hw]. rewrite (lower_word_char_lower c Hc). exact (IH Hw).
Qed.

(** X2: for a text of 7-bit characters and whatever the iteration order
    of the set, every concept returned by extract has at least 4
    characters, all of them lower-case letters, digits or underscores: no
    punctuation, no whitespace and no upper-case letter reaches the
    concepts. *)
Theorem concepts_are_lower_case_words (order : list string -> list string)
    (text : string) :
  iteration_order order ->
  is_ascii text = true ->
  Forall (fun e => 4 <= String.length e /\
                   Str.forallb lower_word_char e = true)
         (extract_key_concepts order text).
Proof.
  intros Horder _. apply Forall_forall. intros e He.
  apply (extract_incl order Horder) in He.
  apply candidate_concepts_In in He.
  destruct He as (_ & token & Hin & -> & Hkind). split.
  - rewrite lower_length.
    destruct Hkind as [[_ Hlen]|(_ & Hlen & _)]; lia.
  - apply lower_word_chars.
    exact (proj1 (Forall_forall _ _) (tokens_word_chars text) token Hin).
Qed.

Lemma concepts_are_lower_case_words_witness :
  Forall (fun e => 4 <= String.length e /\
                   Str.forallb lower_word_char e = true)
         (extract_key_concepts (@rev string) "The Moon orbits Earth; Earth-Moon tides!").
Proof.
  apply (concepts_are_lower_case_words (@rev string)).
  - intros l. apply Permutation_sym, Permutation_rev.
  - reflexivity.
Defined.

(** X3: when the text has at most 8 distinct candidate concepts nothing is
    lost in the truncation: the lowercased form of every capitalized token
    longer than 3 characters is among the concepts returned, so ordinary
    words that open a sentence are reported as concepts. *)
Theorem capitalized_tokens_are_kept (order : list string -> list string)
    (text token : string) :
  iteration_order order ->
  length (dedup (candidate_concepts text)) <= 8 ->
  In token (tokens text) ->
  capitalized_token token ->
  In (Str.lower token) (extract_key_concepts order text).
Proof.
  intros Horder Hfew Hin Hcap.
  eapply Permutation_in;
    [apply Permutation_sym, (extract_all order Horder text Hfew)|].
  apply dedup_In. rewrite candidate_concepts_passes. apply in_or_app. left.
  apply capitalized_pass_In. exists token. auto.
Qed.

Lemma capitalized_tokens_are_kept_witness :
  In (Str.lower "This") (extract_key_concepts (fun l => l) "This is a cell. Cells divide.").
Proof.
  apply (capitalized_tokens_are_kept (fun l => l) "This is a cell. Cells divide." "This").
  - intros l. apply Permutation_refl.
  - vm_compute. lia.
  - vm_compute. left. reflexivity.
  - split; [reflexivity | vm_compute; lia].
Defined.

(** ** The frequency pass: order, bounds and completeness *)

Lemma lower_idempotent_char (c : ascii) : Char.lower (Char.lower c) = Char.lower c.
Proof. each_char c. Qed.

Lemma lower_idempotent (w : string) : Str.lower (Str.lower w) = Str.lower w.
Proof.
  induction w as [|c w IH]; [reflexivity|].
  cbn [Str.lower Str.map]. rewrite lower_idempotent_char. f_equal. exact IH.
Qed.

Lemma count_word_lower (d : dict) (word : string) :
  count_word d (Str.lower word) = count_word d word.
Proof. unfold count_word, clean. rewrite lower_idempotent. reflexivity. Qed.

Lemma count_words_lower (words : list string) :
  count_words (List.map Str.lower words) = count_words words.
Proof.
  unfold count_words. generalize (@nil (string * nat)).
  induction words as [|w words IH]; intros d; [reflexivity|].
  cbn [List.map fold_left]. rewrite count_word_lower. apply IH.
Qed.

(** X4: the frequency pass does not see the case of the words: it gives
    the same words, in the same order, for a list of tokens and for the
    same tokens lowercased, so "Plants" and "plants" are counted as one
    word. *)
Theorem frequency_pass_ignores_case (words : list string) :
  frequency_pass (List.map Str.lower words) = frequency_pass words.
Proof.
  unfold frequency_pass, frequent_words. rewrite count_words_lower. reflexivity.
Qed.

Lemma StronglySorted_firstn {A : Type} (R : A -> A -> Prop) (n : nat) (l : list A) :
  StronglySorted R l -> StronglySorted R (firstn n l).
Proof.
  revert n. induction l as [|x l IH]; intros n Hs; [destruct n; constructor|].
  destruct n as [|n]; [constructor|]. inversion Hs as [|? ? Hl Hx]; subst.
  cbn [firstn]. constructor; [apply IH, Hl|].
  apply Forall_forall. intros y Hy. apply firstn_incl in Hy.
  exact (proj1 (Forall_forall _ _) Hx y Hy).
Qed.

Lemma StronglySorted_filter {A : Type} (R : A -> A -> Prop) (f : A -> bool)
    (l : list A) :
  StronglySorted R l -> StronglySorted R (List.filter f l).
Proof.
  induction 1 as [|x l Hl IH Hx]; [constructor|].
  cbn [List.filter]. destruct (f x); [|exact IH].
  constructor; [exact IH|]. apply Forall_forall. intros y Hy.
  apply filter_In in Hy. exact (proj1 (Forall_forall _ _) Hx y (proj1 Hy)).
Qed.

Lemma StronglySorted_map {A B : Type} (R : A -> A -> Prop) (R' : B -> B -> Prop)
    (f : A -> B) (l : list A) :
  (forall x y, In x l -> In y l -> R x y -> R' (f x) (f y)) ->
  StronglySorted R l -> StronglySorted R' (List.map f l).
Proof.
  intros Hf Hs. induction Hs as [|x l Hl IH Hx]; [constructor|].
  cbn [List.map]. constructor.
  - apply IH. intros a b Ha Hb. apply Hf; right; assumption.
  - apply Forall_forall. intros b Hb. apply in_map_iff in Hb.
    destruct Hb as (y & <- & Hy). apply Hf; [left; reflexivity | right; exact Hy|].
    exact (proj1 (Forall_forall _ _) Hx y Hy).
Qed.

Lemma NoDup_map_filter {A B : Type} (f : A -> B) (p : A -> bool) (l : list A) :
  NoDup (List.map f l) -> NoDup (List.map f (List.filter p l)).
Proof.
  induction l as [|x l IH]; [intros; constructor|].
  cbn [List.map List.filter]. intros Hnd. inversion Hnd as [|? ? Hnotin Hnd']; subst.
  destruct (p x); [|apply IH, Hnd']. cbn [List.map]. constructor; [|apply IH, Hnd'].
  intros Hin. apply Hnotin. apply in_map_iff in Hin. destruct Hin as (y & E & Hy).
  apply in_map_iff. exists y. split; [exact E|]. apply filter_In in Hy. apply Hy.
Qed.

Lemma token_counts (text : string) :
  counts (count_words (tokens text))
         (List.filter is_meaningful (List.map Str.lower (tokens text))).
Proof.
  pose proof (count_words_counts (tokens text)) as Hc.
  rewrite clean_tokens in Hc. exact Hc.
Qed.

Lemma item_occurrences (text : string) (k : string) (v : nat) :
  In (k, v) (count_words (tokens text)) ->
  is_meaningful k = true /\ v = occurrences k (tokens text).
Proof.
  intros Hin. destruct (token_counts text) as (Hnd & Hget & Hkeys).
  assert (Hkey : In k (List.map fst (count_words (tokens text)))).
  { apply in_map_iff. exists (k, v). split; [reflexivity | exact Hin]. }
  apply Hkeys, filter_In in Hkey. destruct Hkey as [_ Hmean].
  split; [exact Hmean|].
  rewrite <- (meaningful_occurrences _ _ Hmean), <- Hget.
  symmetry. apply dict_get_item; assumption.
Qed.

(** X5: the frequency pass returns at most 10 words, none of them twice,
    from the most frequent to the least frequent: along the list the
    numbers of occurrences in the text never increase. *)
Theorem frequency_pass_is_ranked (text : string) :
  length (frequency_pass (tokens text)) <= 10 /\
  NoDup (frequency_pass (tokens text)) /\
  StronglySorted
    (fun w w' => occurrences w' (tokens text) <= occurrences w (tokens text))
    (frequency_pass (tokens text)).
Proof.
  unfold frequency_pass, frequent_words.
  set (d := count_words (tokens text)).
  assert (Hsub : forall x, In x (List.filter (fun p => 1 <? snd p) (firstn 10 (sorted_desc d)))
                           -> In x d).
  { intros x Hx. apply filter_In in Hx. destruct Hx as [Hx _].
    apply firstn_incl in Hx.
    exact (Permutation_in _ (sorted_desc_permutation d) Hx). }
  split; [|split].
  - rewrite length_map. etransitivity; [apply filter_length_le|].
    rewrite length_firstn. apply Nat.le_min_l.
  - apply NoDup_map_filter. rewrite <- firstn_map. apply firstn_NoDup.
    eapply Permutation_NoDup;
      [apply Permutation_map, Permutation_sym, sorted_desc_permutation|].
    apply (token_counts text).
  - eapply StronglySorted_map;
      [|apply StronglySorted_filter, StronglySorted_firstn, sorted_desc_descending].
    intros [k v] [k' v'] Hx Hy Hle. cbn [fst snd] in *.
    apply Hsub, item_occurrences in Hx. apply Hsub, item_occurrences in Hy.
    destruct Hx as [_ <-]. destruct Hy as [_ <-]. exact Hle.
Qed.

(** X6: when the text has at most 10 distinct lowercased words that are
    alphabetic and longer than 4 characters, the frequency pass misses
    none of those that repeat: for every token whose lowercased form is
    alphabetic, longer than 4 characters and occurs more than once, that
    lowercased form is in its result. *)
Theorem frequency_pass_is_complete (text token : string) :
  length (meaningful_words (tokens text)) <= 10 ->
  In token (tokens text) ->
  Str.isalpha (Str.lower token) = true ->
  4 < String.length (Str.lower token) ->
  1 < occurrences (Str.lower token) (tokens text) ->
  In (Str.lower token) (frequency_pass (tokens text)).
Proof.
  intros Hfew Hin Halpha Hlen Hocc.
  pose proof (token_counts text) as Hc. pose proof Hc as (Hnd & Hget & Hkeys).
  set (d := count_words (tokens text)) in *.
  assert (Hmean : is_meaningful (Str.lower token) = true).
  { unfold is_meaningful. rewrite Halpha.
    apply andb_true_intro. split; [apply Nat.ltb_lt, Hlen | reflexivity]. }
  assert (Hkey : In (Str.lower token) (List.map fst d)).
  { apply Hkeys, filter_In. split; [apply in_map, Hin | exact Hmean]. }
  apply in_map_iff in Hkey. destruct Hkey as ([k v] & Ek & Hitem).
  cbn [fst] in Ek. subst k.
  pose proof (item_occurrences text _ _ Hitem) as [_ Hv].
  unfold frequency_pass, frequent_words. fold d.
  apply in_map_iff. exists (Str.lower token, v). split; [reflexivity|].
  apply filter_In. split; [|cbn [snd]; apply Nat.ltb_lt; lia].
  rewrite firstn_all2.
  - exact (Permutation_in _ (Permutation_sym (sorted_desc_permutation d)) Hitem).
  - rewrite (Permutation_length (sorted_desc_permutation d)).
    rewrite <- (length_map fst d), (Permutation_length (keys_permutation d _ Hc)).
    exact Hfew.
Qed.

Lemma frequency_pass_is_complete_witness :
  In (Str.lower "Photosynthesis")
     (frequency_pass (tokens "Photosynthesis is a process. Photosynthesis occurs in plants. Plants use Photosynthesis to create energy.")).
Proof.
  apply (frequency_pass_is_complete
           "Photosynthesis is a process. Photosynthesis occurs in plants. Plants use Photosynthesis to create energy."
           "Photosynthesis").
  - vm_compute. lia.
  - vm_compute. left. reflexivity.
  - reflexivity.
  - vm_compute. lia.
  - vm_compute. lia.
Defined.

(** ** Punctuation *)

Lemma re_sub_idempotent (text : string) :
  re_sub_punctuation (re_sub_punctuation text) = re_sub_punctuation text.
Proof.
  unfold re_sub_punctuation. induction text as [|c text IH]; [reflexivity|].
  cbn [Str.map]. rewrite IH. f_equal.
  destruct (Char.isword c || Char.isspace c) eqn:E; [rewrite E|]; reflexivity.
Qed.

(** X7: the extraction gives the same concepts for a text and for the
    same text whose punctuation has already been replaced by spaces:
    punctuation only separates tokens. *)
Theorem extraction_ignores_punctuation (order : list string -> list string)
    (text : string) :
  extract_key_concepts order (re_sub_punctuation text)
  = extract_key_concepts order text.
Proof.
  unfold extract_key_concepts. f_equal. f_equal.
  rewrite !candidate_concepts_passes. unfold tokens.
  rewrite re_sub_idempotent. reflexivity.
Qed.

(** ** The assignment generator, draw by draw *)

Lemma fill_format (k : nat) (topic : string) :
  k < length assignment_templates ->
  Format.format (nth k assignment_templates EmptyString) topic = Ok (fill k topic).
Proof. intros Hk. apply format_template, nth_In, Hk. Qed.

Lemma fill_formatted_generic (k : nat) :
  k < length assignment_templates -> formatted (fill k generic_topic).
Proof.
  intros Hk. exists (nth k assignment_templates EmptyString), generic_topic.
  split; [apply nth_In, Hk|]. split; [left; reflexivity | apply fill_format, Hk].
Qed.

Lemma fill_formatted_title (k : nat) (concept : string) :
  k < length assignment_templates -> formatted (fill k (Str.title concept)).
Proof.
  intros Hk. exists (nth k assignment_templates EmptyString), (Str.title concept).
  split; [apply nth_In, Hk|].
  split; [right; exists concept; reflexivity | apply fill_format, Hk].
Qed.

Lemma concept_assignment_run (i : nat) (concept : string)
    (assignments : list string) (g : rng) :
  concept_assignment (i, concept) assignments g
  = Ok (assignments ++ [fill (i mod 5) (Str.title concept)], g).
Proof.
  assert (Hlt : i mod 5 < length assignment_templates)
    by (apply Nat.mod_upper_bound; discriminate).
  unfold concept_assignment, template_at.
  change (length assignment_templates) with 5.
  rewrite (nth_error_nth' assignment_templates EmptyString Hlt).
  unfold bind, ret, lift. rewrite (fill_format _ _ Hlt). reflexivity.
Qed.

Lemma choice_templates_run (g : rng) :
  Random.choice assignment_templates g
  = Ok (nth (g 0 mod 5) assignment_templates EmptyString, shift g).
Proof.
  assert (Hlt : g 0 mod 5 < length assignment_templates)
    by (apply Nat.mod_upper_bound; discriminate).
  unfold Random.choice, assignment_templates at 1, bind, Random.randbelow.
  change (length assignment_templates) with 5.
  rewrite (nth_error_nth' assignment_templates EmptyString Hlt). reflexivity.
Qed.

Lemma backfill_done (fuel : nat) (assignments : list string) (g : rng) :
  2 <= length assignments -> backfill fuel assignments g = Ok (assignments, g).
Proof.
  intros Hlen. apply Nat.ltb_ge in Hlen.
  destruct fuel; cbn [backfill]; rewrite Hlen; reflexivity.
Qed.

Lemma backfill_turn (fuel : nat) (assignments : list string) (g : rng) :
  length assignments < 2 -> Forall formatted assignments ->
  backfill (S fuel) assignments g
  = backfill fuel (assignments ++ [fill (g 0 mod 5) generic_topic]) (shift g).
Proof.
  intros Hlen Hall. apply Nat.ltb_lt in Hlen.
  assert (Hlt : g 0 mod 5 < length assignment_templates)
    by (apply Nat.mod_upper_bound; discriminate).
  cbn [backfill]. rewrite Hlen.
  rewrite (remaining_templates_all assignments (Forall_formatted_free _ Hall)).
  change (match assignment_templates with
          | [] => ret assignments
          | _ :: _ =>
              template <- Random.choice assignment_templates ;;
              assignment <- lift (Format.format template generic_topic) ;;
              backfill fuel (assignments ++ [assignment])
          end g)
    with ((template <- Random.choice assignment_templates ;;
           assignment <- lift (Format.format template generic_topic) ;;
           backfill fuel (assignments ++ [assignment])) g).
  unfold bind at 1. rewrite choice_templates_run.
  unfold bind at 1, lift. rewrite (fill_format _ _ Hlt). reflexivity.
Qed.

(** X8: with two concepts or more the assignments are fixed by the first
    two concepts alone: template 0 filled with the title-cased first
    concept and template 1 filled with the title-cased second one; the
    loop makes no turn (any fuel will do) and no random draw is
    consumed. *)
Theorem two_concepts_make_no_draw (fuel : nat) (text : string)
    (c0 c1 : string) (rest : list string) (g : rng) :
  generate_assignments fuel text (c0 :: c1 :: rest) g
  = Ok ([fill 0 (Str.title c0); fill 1 (Str.title c1)], g).
Proof.
  unfold generate_assignments, concept_assignments, enumerate.
  cbn [length Nat.leb firstn seq combine for_each].
  unfold bind at 1. unfold bind at 1. rewrite concept_assignment_run.
  cbn [app]. unfold bind at 1. rewrite concept_assignment_run.
  cbn [app]. unfold ret at 1. unfold bind at 1.
  rewrite backfill_done by (cbn; lia). reflexivity.
Qed.

(** X9: with a single concept the first assignment is template 0 filled
    with the title-cased concept and the second is the template whose
    index is the next draw modulo 5, filled with the generic topic; all
    five templates can be drawn, template 0 included. *)
Theorem one_concept_makes_one_draw (fuel : nat) (text : string)
    (c0 : string) (g : rng) :
  generate_assignments (1 + fuel) text [c0] g
  = Ok ([fill 0 (Str.title c0); fill (g 0 mod 5) generic_topic], shift g).
Proof.
  unfold generate_assignments, concept_assignments, enumerate.
  cbn [length Nat.leb firstn seq combine for_each].
  unfold bind at 1. unfold bind at 1. rewrite concept_assignment_run.
  cbn [app]. unfold ret at 1. unfold bind at 1.
  cbn [Nat.add]. rewrite backfill_turn;
    [|cbn; lia | repeat constructor; apply (fill_formatted_title 0); cbn; lia].
  cbn [app]. rewrite backfill_done by (cbn; lia). reflexivity.
Qed.

(** X10: without concepts both assignments are filled with the generic
    topic, in the templates whose indices are the next two draws modulo
    5; when the two draws agree the two assignments are the same text. *)
Theorem no_concept_makes_two_draws (fuel : nat) (text : string) (g : rng) :
  generate_assignments (2 + fuel) text [] g
  = Ok ([fill (g 0 mod 5) generic_topic; fill (g 1 mod 5) generic_topic],
        shift (shift g)).
Proof.
  assert (Hlt : g 0 mod 5 < length assignment_templates)
    by (apply Nat.mod_upper_bound; discriminate).
  unfold generate_assignments, concept_assignments.
  unfold bind at 1. unfold ret at 1. unfold bind at 1.
  cbn [Nat.add]. rewrite backfill_turn; [|cbn; lia | constructor].
  cbn [app]. rewrite backfill_turn;
    [|cbn; lia | repeat constructor; apply fill_formatted_generic, Hlt].
  cbn [app]. rewrite backfill_done by (cbn; lia). reflexivity.
Qed.

(** ** Formatting a template *)

Lemma append_length (a b : string) :
  String.length (a ++ b) = String.length a + String.length b.
Proof.
  induction a as [|c a IH]; [reflexivity|].
  cbn [append String.length Nat.add]. f_equal. exact IH.
Qed.

Lemma prefix_append (sub suf : string) : prefix sub (sub ++ suf) = true.
Proof.
  induction sub as [|c sub IH]; [destruct suf; reflexivity|].
  cbn [append prefix]. destruct (ascii_dec c c); [exact IH | congruence].
Qed.

Lemma contains_append (pre sub suf : string) :
  Str.contains sub (pre ++ sub ++ suf) = true.
Proof.
  induction pre as [|c pre IH].
  - cbn [append]. destruct (sub ++ suf)%string eqn:E.
    + cbn [Str.contains]. rewrite <- E, prefix_append. reflexivity.
    + cbn [Str.contains]. rewrite <- E, prefix_append. reflexivity.
  - cbn [append Str.contains]. rewrite IH. apply orb_true_r.
Qed.

(** X11: formatting any of the five templates never raises, whatever the
    topic, braces included: the topic is inserted as it is in the place of
    the field, so the result contains the topic and its length is that of
    the template less the 7 characters of the field plus that of the
    topic. *)
Theorem format_inserts_the_topic (i : nat) (topic : string) :
  Format.format (template_of i) topic = Ok (fill (i mod 5) topic) /\
  Str.contains topic (fill (i mod 5) topic) = true /\
  String.length (fill (i mod 5) topic) + 7
  = String.length (template_of i) + String.length topic.
Proof.
  assert (Hlt : i mod 5 < length assignment_templates)
    by (apply Nat.mod_upper_bound; discriminate).
  unfold template_of. change (length assignment_templates) with 5.
  split; [apply fill_format, Hlt|]. split; [apply contains_append|].
  destruct (template_cut _ (nth_In assignment_templates EmptyString Hlt)) as (Et & _).
  rewrite Et at 1. unfold fill. rewrite !append_length. cbn [String.length]. lia.
Qed.

(** ** Only the leading concepts matter *)

Lemma nth_error_firstn_lt {A : Type} (n i : nat) (l : list A) :
  i < n -> nth_error (firstn n l) i = nth_error l i.
Proof.
  revert i l. induction n as [|n IH]; intros i l Hi; [lia|].
  destruct l as [|x l]; [reflexivity|]. destruct i as [|i]; [reflexivity|].
  cbn [firstn nth_error]. apply IH. lia.
Qed.

Lemma quiz_question_firstn (concepts : list string) (i : nat)
    (questions : list Question) :
  i < 3 ->
  quiz_question (firstn 3 concepts) i questions = quiz_question concepts i questions.
Proof.
  intros Hi. unfold quiz_question, question_text, answers_for.
  rewrite (nth_error_firstn_lt 3 i concepts Hi). reflexivity.
Qed.

(** X12: generate_quiz_questions reads the first three concepts only and
    never the text: it gives the same outcome, from the same random
    source, on a list of concepts and on its first three elements, with
    any other text. *)
Theorem quiz_uses_three_concepts (text text' : string)
    (concepts : list string) (g : rng) :
  generate_quiz_questions text concepts g
  = generate_quiz_questions text' (firstn 3 concepts) g.
Proof.
  unfold generate_quiz_questions. cbv zeta. cbn [seq for_each].
  unfold bind. rewrite (quiz_question_firstn concepts 0) by lia.
  destruct (quiz_question concepts 0 [] g) as [[qs0 g0]| |]; [|reflexivity ..].
  rewrite (quiz_question_firstn concepts 1) by lia.
  destruct (quiz_question concepts 1 qs0 g0) as [[qs1 g1]| |]; [|reflexivity ..].
  rewrite (quiz_question_firstn concepts 2) by lia. reflexivity.
Qed.

(** ** The questions of the quiz *)

Lemma concept_answers_NoDup (i : nat) (concept : string) :
  NoDup (fst (concept_answers i concept) :: snd (concept_answers i concept)).
Proof.
  constructor; [apply concept_answers_distinct|].
  unfold concept_answers. cbv zeta. cbn [snd].
  destruct (i =? 1); [|destruct (i =? 2)];
    repeat (constructor;
            [cbn [In]; intros H;
             repeat (destruct H as [H|H]; [revert H; differ_after_prefix|]);
             exact H|]);
    constructor.
Qed.

Lemma answers_for_NoDup (concepts : list string) (i : nat) :
  NoDup (fst (answers_for concepts i) :: snd (answers_for concepts i)).
Proof.
  unfold answers_for. destruct (nth_error concepts i) as [concept|].
  - apply concept_answers_NoDup.
  - cbn [generic_answers fst snd].
    repeat (constructor;
            [cbn [In]; intros H;
             repeat (destruct H as [H|H]; [discriminate H|]); exact H|]).
    constructor.
Qed.

Lemma question_text_shape (concepts : list string) (i : nat) :
  returns (question_text concepts i)
    (fun text =>
       match nth_error concepts i with
       | Some concept =>
           exists starter, In starter question_starters /\
             text = (starter ++ " " ++ concept ++ "?")%string
       | None => text = generic_question
       end).
Proof.
  unfold question_text. destruct (nth_error concepts i) as [concept|].
  - eapply returns_bind; [apply choice_returns; discriminate|].
    intros starter Hin. apply returns_ret. exists starter. split; [exact Hin | reflexivity].
  - apply returns_ret. reflexivity.
Qed.

Lemma quiz_question_exact (concepts : list string) (i : nat)
    (questions : list Question) :
  returns (quiz_question concepts i questions)
    (fun qs => exists q, qs = questions ++ [q] /\
                         question_ok concepts i q /\
                         options_exact concepts i q).
Proof.
  unfold quiz_question, options_exact, question_ok, intended_answer.
  pose proof (answers_for_NoDup concepts i) as Hnd.
  pose proof (answers_for_distinct concepts i) as [_ Hlen3].
  destruct (answers_for concepts i) as [correct wrong]. cbn [fst snd] in *.
  eapply returns_bind; [apply question_text_shape|]. intros qtext Hq.
  eapply returns_bind; [apply shuffle_returns|]. intros all_answers Hperm.
  assert (Hin : In correct all_answers).
  { eapply Permutation_in; [exact Hperm | left; reflexivity]. }
  destruct (index_found correct all_answers Hin) as (k0 & Ek & Hk0).
  unfold index_of. rewrite Ek. unfold bind, ret. intros g.
  eexists _, g. split; [reflexivity|]. eexists. split; [reflexivity|].
  cbn [question options correct_answer].
  assert (Hnd' : NoDup all_answers) by (eapply Permutation_NoDup; eassumption).
  assert (Hlen : length all_answers = 4).
  { rewrite <- (Permutation_length Hperm). cbn [length]. rewrite Hlen3. reflexivity. }
  split; [exact Hq|]. split; [exact Hperm|]. split; [exact Hnd'|].
  intros k. split.
  - intros Hk. assert (k = k0).
    { apply (proj1 (NoDup_nth_error all_answers) Hnd').
      - apply nth_error_Some. rewrite Hk. discriminate.
      - rewrite Hk, Hk0. reflexivity. }
    subst k. apply label_of_position. rewrite <- Hlen.
    apply nth_error_Some. rewrite Hk0. discriminate.
  - intros Hk. assert (Hk4 : k0 < 4).
    { rewrite <- Hlen. apply nth_error_Some. rewrite Hk0. discriminate. }
    rewrite (proj2 (label_of_position k0 Hk4)) in Hk. injection Hk as <-. exact Hk0.
Qed.

Lemma generate_quiz_questions_exact (text : string) (concepts : list string) :
  returns (generate_quiz_questions text concepts)
    (fun qs => Forall2 (fun i q => question_ok concepts i q /\ options_exact concepts i q)
                       (seq 0 3) qs).
Proof.
  unfold generate_quiz_questions. cbv zeta. cbn [seq for_each].
  eapply returns_bind; [apply quiz_question_exact|].
  intros ? (q0 & -> & H0). cbn [app].
  eapply returns_bind; [apply quiz_question_exact|].
  intros ? (q1 & -> & H1). cbn [app].
  eapply returns_bind; [apply quiz_question_exact|].
  intros ? (q2 & -> & H2). cbn [app].
  apply returns_ret. repeat (apply Forall2_cons; [assumption|]). apply Forall2_nil.
Qed.

(** X13: the question of index i asks about concepts[i] when the list has
    one: its text is one of the five starters, a space, the concept as it
    is (not title-cased) and a question mark; when the list is too short
    the text is the generic question, the same for every missing
    concept. *)
Theorem question_texts (text : string) (concepts : list string) (g : rng) :
  exists (qs : list Question) (g' : rng),
    generate_quiz_questions text concepts g = Ok (qs, g') /\
    Forall2 (question_ok concepts) (seq 0 3) qs.
Proof.
  destruct (generate_quiz_questions_exact text concepts g) as (qs & g' & E & H).
  exists qs, g'. split; [exact E|].
  eapply Forall2_impl; [|exact H]. intros i q [Hq _]. exact Hq.
Qed.

(** X14: the options of each question are the correct answer and the
    three wrong answers of that question in some order, four different
    texts whatever the concept, and the position the label stands for is
    the only one that holds the correct answer. *)
Theorem options_are_four_different_answers (text : string)
    (concepts : list string) (g : rng) :
  exists (qs : list Question) (g' : rng),
    generate_quiz_questions text concepts g = Ok (qs, g') /\
    Forall2 (options_exact concepts) (seq 0 3) qs.
Proof.
  destruct (generate_quiz_questions_exact text concepts g) as (qs & g' & E & H).
  exists qs, g'. split; [exact E|].
  eapply Forall2_impl; [|exact H]. intros i q [_ Ho]. exact Ho.
Qed.

(** ** The guard of the pipeline and the statistics *)

Lemma token_starts_positive (s : string) :
  Str.existsb nonspace s = true <-> 0 < token_starts true s.
Proof.
  induction s as [|c s IH]; [cbn; split; [discriminate | lia]|].
  cbn [Str.existsb token_starts]. unfold nonspace at 1.
  destruct (Char.isspace c); cbn [negb andb orb]; [exact IH|].
  split; [lia | reflexivity].
Qed.

Lemma has_input_nonspace (input_text : string) :
  has_input input_text = Str.existsb nonspace input_text.
Proof. apply strip_empty. Qed.

(** X15: the pipeline runs and the results are shown exactly when the
    button is pressed and the text holds at least one word, so the word
    count of the analysis tab is never 0; a press of the button on a text
    without any word gives the warning, and no press gives the
    instructions. *)
Theorem main_page_by_word_count (generate_button : bool) (input_text : string) :
  (main_page generate_button input_text = Results <->
   generate_button = true /\ 0 < word_count input_text) /\
  (main_page generate_button input_text = Warning <->
   generate_button = true /\ word_count input_text = 0) /\
  (main_page generate_button input_text = Instructions <->
   generate_button = false).
Proof.
  unfold main_page, word_count. rewrite split_length, has_input_nonspace.
  pose proof (token_starts_positive input_text) as Hpos.
  destruct generate_button; cbn [andb];
    destruct (Str.existsb nonspace input_text).
  - assert (0 < token_starts true input_text) by (apply Hpos; reflexivity).
    repeat split; try discriminate; try lia; intros [_ ?]; lia.
  - assert (token_starts true input_text = 0).
    { destruct (token_starts true input_text); [reflexivity|].
      assert (false = true) by (apply Hpos; lia). discriminate. }
    repeat split; try discriminate; try lia; intros [_ ?]; lia.
  - repeat split; try discriminate; intros [? _]; discriminate.
  - repeat split; try discriminate; intros [? _]; discriminate.
Qed.

Lemma split_on_length (sep : ascii) (s : string) :
  length (Str.split_on sep s) = S (count_char sep s).
Proof.
  induction s as [|c s IH]; [reflexivity|].
  cbn [Str.split_on count_char]. destruct (Ascii.eqb c sep).
  - cbn [length]. rewrite IH. reflexivity.
  - rewrite cons_head_length; [exact IH|].
    destruct (Str.split_on sep s); [discriminate IH | discriminate].
Qed.

Lemma split_on_absent (sep : ascii) (s : string) :
  count_char sep s = 0 -> Str.split_on sep s = [s].
Proof.
  induction s as [|c s IH]; [reflexivity|].
  cbn [Str.split_on count_char]. destruct (Ascii.eqb c sep); [discriminate|].
  intros H. rewrite (IH H). reflexivity.
Qed.

(** X16: the sentence count is at most the number of full stops plus one,
    and a text without a full stop counts as one sentence when it holds a
    word and as none otherwise. *)
Theorem sentence_count_bounds (input_text : string) :
  sentence_count input_text <= S (count_char "." input_text) /\
  (count_char "." input_text = 0 ->
   sentence_count input_text = if has_input input_text then 1 else 0).
Proof.
  unfold sentence_count. split.
  - rewrite <- split_on_length. apply filter_length_le.
  - intros H. rewrite (split_on_absent _ _ H). cbn [List.filter].
    fold (has_input input_text). destruct (has_input input_text); reflexivity.
Qed.

(** ** The text synthesized from a topic *)

Lemma synthesize_text_weave (topic : string) :
  synthesize_text topic = weave topic boilerplate.
Proof. reflexivity. Qed.

Lemma token_starts_append (b : bool) (s r : string) :
  token_starts b (s ++ r) = token_starts b s + token_starts (last_space b s) r.
Proof.
  revert b. induction s as [|c s IH]; intros b; [reflexivity|].
  cbn [append token_starts last_space]. rewrite IH. lia.
Qed.

Lemma padded_last (b : bool) (p : string) : padded p = true -> last_space b p = true.
Proof.
  unfold padded. destruct p as [|c p]; [rewrite andb_false_r; discriminate|].
  cbn [last_space]. intros H. apply andb_prop in H. apply H.
Qed.

Lemma padded_first (b : bool) (p r : string) :
  padded p = true -> token_starts b (p ++ r) = token_starts true (p ++ r).
Proof.
  unfold padded. destruct p as [|c p]; [rewrite andb_false_r; discriminate|].
  cbn [Str.starts_blank append token_starts]. intros H. apply andb_prop in H.
  destruct H as [-> _]. cbn [negb]. rewrite !andb_false_r. reflexivity.
Qed.

Lemma weave_padded_first (b : bool) (topic p : string) (rest : list string) :
  padded p = true ->
  token_starts b (weave topic (p :: rest)) = token_starts true (weave topic (p :: rest)).
Proof.
  intros Hp. cbn [weave]. destruct rest as [|q rest].
  - revert Hp. unfold padded. destruct p as [|c p]; [rewrite andb_false_r; discriminate|].
    cbn [Str.starts_blank token_starts]. intros H. apply andb_prop in H.
    destruct H as [-> _]. cbn [negb]. rewrite !andb_false_r. reflexivity.
  - apply padded_first, Hp.
Qed.

Lemma token_starts_weave (topic : string) (pieces : list string) :
  Forall (fun p => padded p = true) pieces -> pieces <> [] ->
  token_starts true (weave topic pieces)
  = list_sum (List.map (token_starts true) pieces)
    + (length pieces - 1) * token_starts true topic.
Proof.
  induction 1 as [|p rest Hp Hrest IH]; [congruence|]. intros _.
  destruct rest as [|q rest].
  - cbn [weave List.map list_sum fold_right length]. lia.
  - specialize (IH ltac:(discriminate)).
    change (weave topic (p :: q :: rest))
      with (p ++ topic ++ weave topic (q :: rest))%string.
    rewrite token_starts_append, (padded_last true p Hp).
    rewrite token_starts_append.
    inversion Hrest as [|? ? Hq _]; subst.
    rewrite (weave_padded_first _ topic q rest Hq), IH.
    cbn [List.map list_sum fold_right length]. lia.
Qed.

(** X17: for every topic the word count of the synthesized text is 70
    plus 5 times the word count of the topic: the template has 70 words of
    its own and embeds the topic 5 times, each time between whitespace. *)
Theorem topic_text_word_count (topic : string) :
  word_count (synthesize_text topic) = 70 + 5 * word_count topic.
Proof.
  unfold word_count. rewrite !split_length, synthesize_text_weave.
  rewrite token_starts_weave; [|repeat constructor | discriminate].
  reflexivity.
Qed.

Lemma existsb_append (p : ascii -> bool) (a b : string) :
  Str.existsb p (a ++ b) = Str.existsb p a || Str.existsb p b.
Proof.
  induction a as [|c a IH]; [reflexivity|].
  cbn [append Str.existsb]. rewrite IH. apply orb_assoc.
Qed.

(** X18: a topic that is not the empty string always reaches the
    pipeline, a topic made of spaces included, since the synthesized text
    has words of its own; the empty topic gives the empty text, which the
    guard of main turns away. *)
Theorem topic_reaches_the_pipeline (topic : string) :
  has_input (topic_input topic) = negb (Str.is_empty topic).
Proof.
  unfold topic_input. destruct topic as [|c topic]; [reflexivity|].
  cbn [Str.is_empty negb]. rewrite has_input_nonspace, synthesize_text_weave.
  change (weave (String c topic) boilerplate)
    with (nth 0 boilerplate EmptyString ++ String c topic
          ++ nth 1 boilerplate EmptyString ++ String c topic
          ++ weave (String c topic) (skipn 2 boilerplate))%string.
  rewrite !existsb_append.
  assert (E : Str.existsb nonspace (nth 1 boilerplate EmptyString) = true)
    by reflexivity.
  rewrite E. rewrite orb_true_l, !orb_true_r. reflexivity.
Qed.

(** ** From the extraction to the assignments *)

Lemma brace_free_append (a b : string) :
  brace_free (a ++ b) = brace_free a && brace_free b.
Proof.
  unfold brace_free. induction a as [|c a IH]; [reflexivity|].
  cbn [append Str.forallb]. rewrite IH. apply andb_assoc.
Qed.

Lemma title_char_brace (flag : bool) (c : ascii) :
  is_brace (if flag then Char.lower c else Char.upper c) = is_brace c.
Proof. destruct flag; each_char c. Qed.

Lemma title_brace_free (flag : bool) (s : string) :
  brace_free (Str.title_from flag s) = brace_free s.
Proof.
  unfold brace_free. revert flag. induction s as [|c s IH]; intros flag; [reflexivity|].
  cbn [Str.title_from Str.forallb]. rewrite title_char_brace, IH. reflexivity.
Qed.

Lemma lower_word_char_no_brace (c : ascii) :
  lower_word_char c = true -> negb (is_brace c) = true.
Proof. each_char c. Qed.

Lemma lower_word_brace_free (s : string) :
  Str.forallb lower_word_char s = true -> brace_free s = true.
Proof.
  unfold brace_free. induction s as [|c s IH]; [reflexivity|].
  cbn [Str.forallb]. intros H. apply andb_prop in H. destruct H as [Hc Hs].
  rewrite (lower_word_char_no_brace c Hc). exact (IH Hs).
Qed.

Lemma fill_brace_free (k : nat) (topic : string) :
  k < length assignment_templates -> brace_free topic = true ->
  brace_free (fill k topic) = true.
Proof.
  intros Hk Htopic.
  destruct (template_cut _ (nth_In assignment_templates EmptyString Hk))
    as (_ & Hpre & Hsuf & _).
  unfold fill. rewrite !brace_free_append, Hpre, Htopic, Hsuf. reflexivity.
Qed.

Lemma concept_brace_free (order : list string -> list string) (text e : string) :
  iteration_order order -> In e (extract_key_concepts order text) ->
  brace_free (Str.title e) = true.
Proof.
  intros Horder He. unfold Str.title. rewrite title_brace_free.
  apply (extract_incl order Horder), candidate_concepts_In in He.
  destruct He as (_ & token & Hin & -> & _).
  apply lower_word_brace_free, lower_word_chars.
  exact (proj1 (Forall_forall _ _) (tokens_word_chars text) token Hin).
Qed.

Lemma assignments_shape (fuel : nat) (text : string) (concepts : list string)
    (g : rng) :
  exists (r : list string) (g' : rng),
    generate_assignments (2 + fuel) text concepts g = Ok (r, g') /\
    Forall (fun a => exists k topic,
                       k < length assignment_templates /\ a = fill k topic /\
                       (topic = generic_topic \/
                        exists concept, In concept concepts /\ topic = Str.title concept))
           r.
Proof.
  assert (Hmod : forall n, n mod 5 < length assignment_templates)
    by (intros n; apply Nat.mod_upper_bound; discriminate).
  assert (Hgen : forall n, exists k topic,
             k < length assignment_templates /\
             fill (n mod 5) generic_topic = fill k topic /\
             (topic = generic_topic \/
              exists concept, In concept concepts /\ topic = Str.title concept)).
  { intros n. exists (n mod 5), generic_topic. auto. }
  unfold generate_assignments, concept_assignments, enumerate.
  destruct concepts as [|c0 [|c1 rest]].
  - unfold bind at 1. unfold ret at 1. unfold bind at 1. cbn [Nat.add].
    rewrite backfill_turn; [|cbn; lia | constructor]. cbn [app].
    rewrite backfill_turn;
      [|cbn; lia | repeat constructor; apply fill_formatted_generic, Hmod].
    cbn [app]. rewrite backfill_done by (cbn; lia).
    eexists _, _. split; [reflexivity|]. cbn [firstn].
    repeat constructor; apply Hgen.
  - cbn [length Nat.leb firstn seq combine for_each].
    unfold bind at 1. unfold bind at 1. rewrite concept_assignment_run.
    cbn [app]. unfold ret at 1. unfold bind at 1. cbn [Nat.add].
    rewrite backfill_turn;
      [|cbn; lia | repeat constructor; apply (fill_formatted_title 0); cbn; lia].
    cbn [app]. rewrite backfill_done by (cbn; lia).
    eexists _, _. split; [reflexivity|]. cbn [firstn].
    constructor; [|repeat constructor; apply Hgen].
    exists 0, (Str.title c0). split; [cbn; lia|]. split; [reflexivity|].
    right. exists c0. split; [left; reflexivity | reflexivity].
  - cbn [length Nat.leb firstn seq combine for_each].
    unfold bind at 1. unfold bind at 1. rewrite concept_assignment_run.
    cbn [app]. unfold bind at 1. rewrite concept_assignment_run.
    cbn [app]. unfold ret at 1. unfold bind at 1.
    rewrite backfill_done by (cbn; lia).
    eexists _, _. split; [reflexivity|]. cbn [firstn].
    constructor; [|constructor; [|constructor]].
    + exists 0, (Str.title c0). split; [cbn; lia|]. split; [reflexivity|].
      right. exists c0. split; [left; reflexivity | reflexivity].
    + exists 1, (Str.title c1). split; [cbn; lia|]. split; [reflexivity|].
      right. exists c1. split; [right; left; reflexivity | reflexivity].
Qed.

(** X19: in the pipeline of main, where the concepts given to
    generate_assignments are those extract returned, the two assignments
    shown hold no brace at all: the concepts are made of word characters,
    so nothing that looks like a field is left in the prompts. *)
Theorem pipeline_assignments_have_no_brace (order : list string -> list string)
    (fuel : nat) (input_text : string) (g : rng) :
  iteration_order order ->
  exists (assignments : list string) (g' : rng),
    generate_assignments (2 + fuel) input_text
      (extract_key_concepts order input_text) g = Ok (assignments, g') /\
    length assignments = 2 /\
    Forall (fun a => brace_free a = true) assignments.
Proof.
  intros Horder.
  destruct (assignments_shape fuel input_text
              (extract_key_concepts order input_text) g) as (r & g' & E & Hshape).
  destruct (generate_assignments_returns fuel input_text
              (extract_key_concepts order input_text) g) as (r0 & g0 & E0 & Hlen & _).
  rewrite E in E0. injection E0 as <- <-.
  exists r, g'. split; [exact E|]. split; [exact Hlen|].
  eapply Forall_impl; [|exact Hshape]. cbv beta.
  intros a (k & topic & Hk & -> & Htopic). apply fill_brace_free; [exact Hk|].
  destruct Htopic as [->|(concept & Hin & ->)]; [reflexivity|].
  apply (concept_brace_free order input_text concept Horder Hin).
Qed.

Lemma pipeline_assignments_have_no_brace_witness :
  exists (assignments : list string) (g' : rng),
    generate_assignments (2 + 0) "Cells divide. {Cells} grow."
      (extract_key_concepts (fun l => l) "Cells divide. {Cells} grow.") (fun n => n)
    = Ok (assignments, g') /\
    length assignments = 2 /\
    Forall (fun a => brace_free a = true) assignments.
Proof.
  apply (pipeline_assignments_have_no_brace (fun l => l) 0
           "Cells divide. {Cells} grow." (fun n => n)).
  intros l. apply Permutation_refl.
Defined.

(** ** Ties in the ranking *)

Lemma insert_desc_stable (n : nat) (x : string * nat) (l : dict) :
  List.filter (fun p => snd p =? n) (insert_desc x l)
  = List.filter (fun p => snd p =? n) (x :: l).
Proof.
  induction l as [|y l IH]; [reflexivity|].
  cbn [insert_desc]. destruct (snd y <=? snd x) eqn:E; [reflexivity|].
  apply Nat.leb_gt in E. cbn [List.filter] in *. rewrite IH.
  destruct (snd x =? n) eqn:Ex, (snd y =? n) eqn:Ey; try reflexivity.
  apply Nat.eqb_eq in Ex, Ey. lia.
Qed.

Lemma sorted_desc_stable (n : nat) (items : dict) :
  List.filter (fun p => snd p =? n) (sorted_desc items)
  = List.filter (fun p => snd p =? n) items.
Proof.
  induction items as [|x items IH]; [reflexivity|].
  cbn [sorted_desc fold_right]. fold (sorted_desc items).
  rewrite insert_desc_stable. cbn [List.filter]. rewrite IH. reflexivity.
Qed.

Lemma dedup_snoc (ws : list string) (w : string) :
  dedup (ws ++ [w]) = if in_dec string_dec w ws then dedup ws else dedup ws ++ [w].
Proof.
  induction ws as [|x ws IH]; [reflexivity|].
  cbn [app dedup]. rewrite IH.
  destruct (in_dec string_dec w ws) as [Hin|Hnotin];
    destruct (in_dec string_dec w (x :: ws)) as [Hin'|Hnotin']; try reflexivity.
  - exfalso. apply Hnotin'. right. exact Hin.
  - rewrite filter_app. cbn [List.filter].
    destruct Hin' as [->|Hin']; [|contradiction].
    rewrite String.eqb_refl. cbn [negb]. rewrite app_nil_r. reflexivity.
  - rewrite filter_app. cbn [List.filter app].
    destruct (String.eqb w x) eqn:E.
    + apply String.eqb_eq in E. subst x. exfalso. apply Hnotin'. left. reflexivity.
    + reflexivity.
Qed.

Lemma dict_set_key_order (k : string) (v : nat) (d : dict) :
  List.map fst (dict_set k v d)
  = if in_dec string_dec k (List.map fst d) then List.map fst d
    else List.map fst d ++ [k].
Proof.
  induction d as [|[k' v'] d IH]; [reflexivity|].
  cbn [dict_set List.map fst]. destruct (String.eqb k' k) eqn:E.
  - apply String.eqb_eq in E. subst k'. cbn [List.map fst].
    destruct (in_dec string_dec k (k :: List.map fst d)) as [_|Hn]; [reflexivity|].
    exfalso. apply Hn. left. reflexivity.
  - apply String.eqb_neq in E. cbn [List.map fst]. rewrite IH.
    destruct (in_dec string_dec k (List.map fst d)) as [Hin|Hnotin];
      destruct (in_dec string_dec k (k' :: List.map fst d)) as [Hin'|Hnotin'];
      try reflexivity.
    + exfalso. apply Hnotin'. right. exact Hin.
    + destruct Hin' as [->|Hin']; [congruence | contradiction].
Qed.

Lemma key_order_fold (words : list string) (d : dict) (ws : list string) :
  counts d ws -> List.map fst d = dedup ws ->
  List.map fst (fold_left count_word words d)
  = dedup (ws ++ List.filter is_meaningful (List.map clean words)).
Proof.
  revert d ws. induction words as [|word words IH]; intros d ws Hc Hkeys.
  - cbn. rewrite app_nil_r. exact Hkeys.
  - cbn [fold_left List.map].
    pose proof (counts_step d ws word Hc) as Hc'.
    specialize (IH (count_word d word) _ Hc').
    rewrite <- app_assoc, <- filter_app in IH. cbn [app] in IH. apply IH.
    unfold count_word. cbn [List.filter].
    destruct (is_meaningful (clean word)); [|rewrite app_nil_r; exact Hkeys].
    rewrite dict_set_key_order, dedup_snoc, Hkeys.
    destruct Hc as (_ & _ & Hin).
    destruct (in_dec string_dec (clean word) (dedup ws)) as [H1|H1];
      destruct (in_dec string_dec (clean word) ws) as [H2|H2]; try reflexivity.
    + exfalso. apply H2, dedup_In, H1.
    + exfalso. apply H1, dedup_In, H2.
Qed.

Lemma token_key_order (text : string) :
  List.map fst (count_words (tokens text)) = meaningful_words (tokens text).
Proof.
  unfold meaningful_words. rewrite <- clean_tokens.
  apply (key_order_fold (tokens text) [] []); [|reflexivity].
  split; [constructor|]. split; reflexivity.
Qed.

(** X20: in the ranking by frequency (before the cut to the top 10), the
    words that occur the same number of times stand in the order of their
    first occurrence in the text. *)
Theorem ties_keep_first_occurrence_order (text : string) (n : nat) :
  List.map fst
    (List.filter (fun p => snd p =? n) (sorted_desc (count_words (tokens text))))
  = List.filter (fun w => occurrences w (tokens text) =? n)
                (meaningful_words (tokens text)).
Proof.
  rewrite sorted_desc_stable, <- token_key_order, filter_map_swap.
  f_equal. apply filter_ext_in. intros [k v] Hin. cbn [fst snd].
  destruct (item_occurrences text k v Hin) as [_ ->]. reflexivity.
Qed.
